(** * Sliding-window rate limiter: rate_limiter_ip.py

    A shallow embedding of the [rate_limit] decorator and of the [wrapper]
    closure it installs around an endpoint, followed by the properties of the
    admission logic.

    The limiter is embedded twice, from the same source lines.
    - The first embedding abstracts [time.time()] readings and the
      timestamps kept in a Window as exact rationals ([Q]) and keeps the
      429 detail as the number [wait]. Rounding is not modelled there. It
      carries the properties that do not rest on the value of a difference:
      which entry of [usage] a call reads and writes, how long a Window
      gets, the order of its timestamps, what a client-less request does,
      the independence of keys.
    - The second embedding, [Binary64], computes as Python does: readings,
      timestamps and [wait] are binary64 floats, [now - t] and
      [period - ...] are rounded, [period] is converted with [float], which
      can raise [OverflowError], the 429 detail is the formatted string, and
      the endpoint may raise. It carries the properties that rest on the
      arithmetic: the sliding-window bound, the bounds of [wait], idle
      Windows, retries and bursts.

    Modelling choices common to both.
    - The clock reading is an argument of [wrapper].
    - [max_calls] and [period] are Python [int]s: [Z].
    - [usage : dict[str, list[float]]] is a [gmap] from strings to lists of
      timestamps, threaded explicitly through [wrapper]; the in-place slice
      assignment [timestamps[:] = ...] and [timestamps.append] write back to
      the entry of [unique_id].
    - [hashlib.sha256(...).hexdigest()] is a library function: it is a
      parameter [sha256_hexdigest] of the development.
    - The decorated endpoint [func] is a function of the request; the
      wrapper appends the timestamp before it calls [func].
    - Python exceptions raised by the wrapper are the [Raised] outcomes. *)

From Stdlib Require Import QArith Lqa.
From Stdlib Require Import Floats.SpecFloat.
From stdpp Require Import gmap strings list sorting pretty.

(** ** Rational comparisons as booleans *)

Definition Qltb (x y : Q) : bool := negb (Qle_bool y x).

(** ** Requests and outcomes *)

(** [request.client]: the peer address, or [None]. *)
Record Address := { host : string }.
Record Request := { client : option Address }.

(** The [detail] of an [HTTPException]; the 429 detail embeds [wait]
    (the source formats it with two decimals, the model keeps the number). *)
Inductive Detail :=
| NoClientInformation
| RetryAfter (wait : Q).

Inductive Exception :=
| HTTPException (status_code : Z) (detail : Detail)
| IndexError
| KeyError.

Inductive Outcome (A : Type) :=
| Returned (a : A)
| Raised (e : Exception).
Arguments Returned {A} a.
Arguments Raised {A} e.

Definition succeeds {A} (o : Outcome A) : Prop := ∃ a, o = Returned a.
Definition is_returned {A} (o : Outcome A) : bool :=
  match o with Returned _ => true | Raised _ => false end.

(** [[t for t in timestamps if now - t < period]] *)
Definition prune (period : Z) (now : Q) (timestamps : list Q) : list Q :=
  List.filter (λ t, Qltb (now - t) (inject_Z period)) timestamps.

Section RateLimit.
Context {Response : Type}.
Variable sha256_hexdigest : string → string.
Variables max_calls period : Z.
Variable func : Request → Response.

(** The closure [wrapper]; [usage] is the captured dict, [now] the value
    read from [time.time()]. *)
Definition wrapper (usage : gmap string (list Q)) (request : Request) (now : Q)
  : Outcome Response * gmap string (list Q) :=
  match client request with
  | None => (Raised (HTTPException 400 NoClientInformation), usage)
  | Some peer =>
    let ip_address := host peer in
    let unique_id := sha256_hexdigest ip_address in
    let usage :=
      match usage !! unique_id with
      | None => <[unique_id := []]> usage
      | Some _ => usage
      end in
    match usage !! unique_id with
    | None => (Raised KeyError, usage)
    | Some timestamps =>
      let timestamps := prune period now timestamps in
      let usage := <[unique_id := timestamps]> usage in
      if (Z.of_nat (length timestamps) <? max_calls)%Z then
        (Returned (func request), <[unique_id := timestamps ++ [now]]> usage)
      else
        match timestamps with
        | [] => (Raised IndexError, usage)
        | oldest :: _ =>
          let wait := (inject_Z period - (now - oldest))%Q in
          (Raised (HTTPException 429 (RetryAfter wait)), usage)
        end
    end
  end.

(** *** Serial executions *)

(** The key the wrapper derives for a request, when it has a client. *)
Definition key_of (request : Request) : option string :=
  (λ peer, sha256_hexdigest (host peer)) <$> client request.

(** The Window of a key: its entry in [usage], empty when absent. *)
Definition window (usage : gmap string (list Q)) (k : string) : list Q :=
  default [] (usage !! k).

(** A call is a request together with the clock reading taken for it. *)
Definition Call : Type := Request * Q.

Definition step (st : gmap string (list Q) * list (Call * Outcome Response))
    (c : Call) : gmap string (list Q) * list (Call * Outcome Response) :=
  let '(out, usage') := wrapper st.1 c.1 c.2 in
  (usage', st.2 ++ [(c, out)]).

(** Calls served one after the other by a freshly decorated endpoint
    ([usage = {}]); the history lists each call with its outcome, oldest
    first. *)
Definition run (calls : list Call)
  : gmap string (list Q) * list (Call * Outcome Response) :=
  fold_left step calls (∅, []).

Definition admitted (k : string) (e : Call * Outcome Response) : bool :=
  match key_of e.1.1 with
  | Some k' => bool_decide (k' = k) && is_returned e.2
  | None => false
  end.

(** Clock readings of the admitted calls of key [k], oldest first. *)
Definition admitted_times (k : string) (h : list (Call * Outcome Response))
  : list Q :=
  map (λ e, e.1.2) (List.filter (admitted k) h).

(** The clock never goes back along a list of calls. *)
Definition clock_monotone (calls : list Call) : Prop :=
  StronglySorted Qle (map snd calls).

End RateLimit.

(** ** Construction *)

(** What [decorator(func)] yields: the wrapper, closed over a fresh
    [usage = {}]. *)
Record Limited (Response : Type) := {
  usage0 : gmap string (list Q);
  call : gmap string (list Q) → Request → Q
         → Outcome Response * gmap string (list Q)
}.
Arguments usage0 {Response} _.
Arguments call {Response} _ _ _ _.

Definition decorator {Response} (sha256_hexdigest : string → string)
    (max_calls period : Z) (func : Request → Response) : Limited Response :=
  {| usage0 := ∅;
     call := wrapper sha256_hexdigest max_calls period func |}.

(** [rate_limit(max_calls, period)] returns the decorator; its body has no
    statement that can raise. *)
Definition rate_limit {Response} (sha256_hexdigest : string → string)
    (max_calls period : Z)
  : Outcome ((Request → Response) → Limited Response) :=
  Returned (decorator sha256_hexdigest max_calls period).

(** An injective stand-in for the digest, to evaluate the model on concrete
    requests. *)
Definition hexdigest_stub (s : string) : string := s.

Definition from_host (h : string) : Request :=
  {| client := Some {| host := h |} |}.

(** ** The limiter over binary64 arithmetic

    The definitions of this module follow the same source lines as the ones
    above, with Python's float arithmetic spelled out: clock readings,
    timestamps and [wait] are IEEE 754 binary64 values ([spec_float], the
    specification of the Standard Library), [now - t] is the rounded
    subtraction, [now - t < period] compares a float with an int exactly,
    [period - ...] converts [period] to a float first and can raise
    [OverflowError], and the 429 detail is the formatted string. *)

Module Binary64.

Definition prec : Z := 53.
Definition emax : Z := 1024.

(** [x - y] on floats: the exact difference rounded to nearest, ties to
    even. *)
Definition fsub (x y : spec_float) : spec_float := SFsub prec emax x y.

(** [x < z], [x > z] and [x <= z] for a float [x] and an int [z]: Python
    compares the two values exactly, without converting [z]. *)
Definition flt_int (x : spec_float) (z : Z) : bool :=
  match x with
  | S754_nan => false
  | S754_infinity s => s
  | S754_zero _ => (0 <? z)%Z
  | S754_finite s m e =>
    if (0 <=? e)%Z then (cond_Zopp s (Zpos m) * 2 ^ e <? z)%Z
    else (cond_Zopp s (Zpos m) <? z * 2 ^ (- e))%Z
  end.



Inductive Exception :=
| HTTPException (status_code : Z) (detail : string)
| IndexError
| KeyError
| OverflowError.

(** What awaiting the endpoint gives (line 37): the value it returns, or
    the exception it raises, which the wrapper does not catch. *)
Inductive Awaited (A E : Type) :=
| Value (a : A)
| Failure (e : E).
Arguments Value {A E} a.
Arguments Failure {A E} e.

(** How a call of the wrapper ends. [Served r]: the request was let
    through, line 36 recorded [now] and awaiting the endpoint gave [r].
    [Raised e]: the wrapper's own code raised [e]. *)
Inductive Outcome (R : Type) :=
| Served (r : R)
| Raised (e : Exception).
Arguments Served {R} r.
Arguments Raised {R} e.

Definition is_served {R} (o : Outcome R) : bool :=
  match o with Served _ => true | Raised _ => false end.

(** [float(z)], the conversion that [int - float] applies to its left
    operand: round to nearest, ties to even; [None] when the result is out
    of range, where Python raises [OverflowError]. *)
Definition float_of_int (z : Z) : option spec_float :=
  match binary_normalize prec emax z 0 false with
  | S754_infinity _ => None
  | x => Some x
  end.

(** The integer nearest to [n / d], ties to even ([0 <= n], [0 < d]). *)
Definition div_half_even (n d : Z) : Z :=
  match (2 * (n mod d) ?= d)%Z with
  | Lt => n / d
  | Eq => if Z.even (n / d) then n / d else n / d + 1
  | Gt => n / d + 1
  end%Z.

Definition two_digits (n : Z) : string :=
  if (n <? 10)%Z then "0" +:+ pretty n else pretty n.

(** [f"{x:.2f}"]: the decimal with two fractional digits nearest to the
    exact value of [x], ties to even. *)
Definition format_2f (x : spec_float) : string :=
  match x with
  | S754_nan => "nan"
  | S754_infinity s => if s then "-inf" else "inf"
  | S754_zero s => if s then "-0.00" else "0.00"
  | S754_finite s m e =>
    let c := if (0 <=? e)%Z then (100 * Zpos m * 2 ^ e)%Z
             else div_half_even (100 * Zpos m) (2 ^ (- e)) in
    (if s then "-" else "") +:+ pretty (c / 100)%Z +:+ "." +:+
    two_digits (c mod 100)%Z
  end.

(** [f"Rate limit exceeded. Retry after {wait:.2f} seconds"] *)
Definition retry_detail (wait : spec_float) : string :=
  "Rate limit exceeded. Retry after " +:+ format_2f wait +:+ " seconds".

(** [[t for t in timestamps if now - t < period]] *)
Definition prune (period : Z) (now : spec_float)
    (timestamps : list spec_float) : list spec_float :=
  List.filter (λ t, flt_int (fsub now t) period) timestamps.

(** [period - (now - timestamps[0])]; [None] when [float(period)]
    overflows. *)
Definition wait_of (period : Z) (now oldest : spec_float)
  : option spec_float :=
  match float_of_int period with
  | Some p => Some (fsub p (fsub now oldest))
  | None => None
  end.

Section RateLimit.
Context {Response Error : Type}.
Variable sha256_hexdigest : string → string.
Variables max_calls period : Z.
Variable func : Request → Awaited Response Error.

(** The closure [wrapper]. [func request] is what awaiting the endpoint
    gives, its value or the exception it raises: the wrapper passes either
    on unchanged, after the timestamp has been appended. *)
Definition wrapper (usage : gmap string (list spec_float))
    (request : Request) (now : spec_float)
  : Outcome (Awaited Response Error) * gmap string (list spec_float) :=
  match client request with
  | None =>
    (Raised (HTTPException 400 "Request has no client information"), usage)
  | Some peer =>
    let ip_address := host peer in
    let unique_id := sha256_hexdigest ip_address in
    let usage :=
      match usage !! unique_id with
      | None => <[unique_id := []]> usage
      | Some _ => usage
      end in
    match usage !! unique_id with
    | None => (Raised KeyError, usage)
    | Some timestamps =>
      let timestamps := prune period now timestamps in
      let usage := <[unique_id := timestamps]> usage in
      if (Z.of_nat (length timestamps) <? max_calls)%Z then
        (Served (func request), <[unique_id := timestamps ++ [now]]> usage)
      else
        match timestamps with
        | [] => (Raised IndexError, usage)
        | oldest :: _ =>
          match wait_of period now oldest with
          | Some wait =>
            (Raised (HTTPException 429 (retry_detail wait)), usage)
          | None => (Raised OverflowError, usage)
          end
        end
    end
  end.

Definition window (usage : gmap string (list spec_float)) (k : string)
  : list spec_float :=
  default [] (usage !! k).

Definition Call : Type := Request * spec_float.

(** One entry of the record of an execution: a call and how it ended. *)
Local Abbreviation Event := (Call * Outcome (Awaited Response Error))%type.

Definition step (st : gmap string (list spec_float) * list Event) (c : Call)
  : gmap string (list spec_float) * list Event :=
  let '(out, usage') := wrapper st.1 c.1 c.2 in
  (usage', st.2 ++ [(c, out)]).

(** Calls served one after the other by a freshly decorated endpoint. *)
Definition run (calls : list Call)
  : gmap string (list spec_float) * list Event :=
  fold_left step calls (∅, []).

(** The call came from the client of key [k] and was let through. *)
Definition admitted (k : string) (e : Event) : bool :=
  match key_of sha256_hexdigest e.1.1 with
  | Some k' => bool_decide (k' = k) && is_served e.2
  | None => false
  end.

(** Clock readings of the admitted calls of key [k], oldest first. *)
Definition admitted_times (k : string) (h : list Event) : list spec_float :=
  map (λ e, e.1.2) (List.filter (admitted k) h).

End RateLimit.

(** *** Exact values *)

(** The value of a finite double, in units of [2^-1074]. *)
Definition units (x : spec_float) : Z :=
  match x with
  | S754_finite s m e => cond_Zopp s (Zpos m * 2 ^ (e + 1074))
  | _ => 0%Z
  end.

(** A clock reading: a finite double, that is a zero or a mantissa and an
    exponent in canonical form. *)
Definition is_reading (x : spec_float) : bool :=
  match x with
  | S754_zero _ => true
  | S754_finite _ m e => bounded prec emax m e
  | _ => false
  end.

Definition readings (calls : list (Request * spec_float)) : Prop :=
  Forall (λ c, is_reading c.2 = true) calls.

(** The clock never goes back along a list of calls. *)
Definition clock_monotone (calls : list (Request * spec_float)) : Prop :=
  StronglySorted (λ x y, (units x <= units y)%Z) (map snd calls).

(** [t] lies in the window [[s, s + period)], in exact arithmetic. *)
Definition within_period (period : Z) (s t : spec_float) : bool :=
  (units s <=? units t)%Z && (units t - units s <? period * 2 ^ 1074)%Z.

(** Round to nearest, ties to even, of a non-negative value counted in
    units of [2^-1074]: 53 significant bits are kept. *)
Definition round_units (u : Z) : Z :=
  let s := Z.max (Z.log2 u - 52) 0 in
  (div_half_even u (2 ^ s) * 2 ^ s)%Z.

Definition fin_repr (x : spec_float) : Prop :=
  match x with
  | S754_zero _ => True
  | S754_finite _ m e => (-1074 <= e <= 971)%Z ∧ (Zpos m < 2 ^ 53)%Z
  | _ => False
  end.

(** [r] is the double nearest to the value [u], or [+inf] when that is out
    of range. *)
Definition rounds_to (r : spec_float) (u : Z) : Prop :=
  ((round_units u < 2 ^ 2098)%Z ∧ fin_repr r ∧ units r = round_units u)
  ∨ ((2 ^ 2098 <= round_units u)%Z ∧ r = S754_infinity false).

(** The calls of one client at the given clock readings. *)
Definition calls_of (h : string) (rs : list spec_float)
  : list (Request * spec_float) :=
  map (λ t, (from_host h, t)) rs.

(** [read_root]: it returns its message and raises nothing. *)
Definition read_root (request : Request)
  : Awaited (gmap string string) Empty_set :=
  Value {[ "message" := "Hello, World!" ]}.

End Binary64.

(** Doubles used in the examples, as mantissa and exponent. *)
Definition d_0 : spec_float := S754_zero false.
Definition d_0_1 : spec_float := S754_finite false 7205759403792794 (-56).
Definition d_1 : spec_float := S754_finite false 4503599627370496 (-52).
Definition d_2 : spec_float := S754_finite false 4503599627370496 (-51).
Definition d_10_1 : spec_float := S754_finite false 5685794529555251 (-49).
Definition d_20 : spec_float := S754_finite false 5629499534213120 (-48).
Definition d_60 : spec_float := S754_finite false 8444249301319680 (-47).

(** Discharges [clock_monotone] on a literal list of calls. *)
Ltac clock_literal :=
  unfold clock_monotone; simpl;
  repeat (constructor; try (vm_compute; discriminate)).

(** ** Auxiliary facts *)

Lemma Qltb_lt (x y : Q) : Qltb x y = true ↔ (x < y)%Q.
Proof.
  unfold Qltb. rewrite negb_true_iff, <- not_true_iff_false, Qle_bool_iff.
  split; [apply Qnot_le_lt | apply Qlt_not_le].
Qed.


Lemma prune_In period now t l :
  In t (prune period now l) ↔ In t l ∧ (now - t < inject_Z period)%Q.
Proof. unfold prune. by rewrite filter_In, Qltb_lt. Qed.


Lemma prune_length_le period now l :
  (length (prune period now l) <= length l)%nat.
Proof. apply List.filter_length_le. Qed.


Lemma window_insert (usage : gmap string (list Q)) k l :
  window (<[k := l]> usage) k = l.
Proof. unfold window. by rewrite lookup_insert_eq. Qed.

Lemma window_empty k : window ∅ k = [].
Proof. unfold window. by rewrite lookup_empty. Qed.

(** ** One call of the wrapper *)

Section Wrapper.
Context {Response : Type}.
Variable sha256_hexdigest : string → string.
Variables max_calls period : Z.
Variable func : Request → Response.

Lemma key_of_Some request k :
  key_of sha256_hexdigest request = Some k ↔
  ∃ peer, client request = Some peer ∧ k = sha256_hexdigest (host peer).
Proof.
  unfold key_of. destruct (client request) as [peer|]; simpl.
  - split; [intros [= <-]; eauto | intros (? & [= <-] & ->); done].
  - split; [done | intros (? & ? & _); done].
Qed.

Lemma key_of_None request :
  key_of sha256_hexdigest request = None ↔ client request = None.
Proof.
  unfold key_of. destruct (client request); simpl; split; done.
Qed.

(** The first statements of the wrapper leave the entry of [k] holding the
    pruned Window. *)
Lemma wrapper_admit usage request now k :
  key_of sha256_hexdigest request = Some k →
  (Z.of_nat (length (prune period now (window usage k))) < max_calls)%Z →
  wrapper sha256_hexdigest max_calls period func usage request now =
    (Returned (func request),
     <[k := prune period now (window usage k) ++ [now]]> usage).
Proof.
  intros (peer & Hc & ->)%key_of_Some Hlt.
  apply Z.ltb_lt in Hlt. unfold window in *.
  unfold wrapper. rewrite Hc. simpl.
  destruct (usage !! sha256_hexdigest (host peer)) as [ts|] eqn:Hk.
  - rewrite Hk. simpl in Hlt. rewrite Hlt.
    by rewrite insert_insert_eq.
  - rewrite lookup_insert_eq. simpl in *. rewrite Hlt.
    by rewrite !insert_insert_eq.
Qed.

Lemma wrapper_reject usage request now k oldest rest :
  key_of sha256_hexdigest request = Some k →
  (max_calls <= Z.of_nat (length (prune period now (window usage k))))%Z →
  prune period now (window usage k) = oldest :: rest →
  wrapper sha256_hexdigest max_calls period func usage request now =
    (Raised (HTTPException 429
               (RetryAfter (inject_Z period - (now - oldest))%Q)),
     <[k := oldest :: rest]> usage).
Proof.
  intros (peer & Hc & ->)%key_of_Some Hge Hw.
  apply Z.ltb_ge in Hge. unfold window in *.
  unfold wrapper. rewrite Hc. simpl.
  destruct (usage !! sha256_hexdigest (host peer)) as [ts|] eqn:Hk.
  - rewrite Hk. simpl in Hge, Hw. rewrite Hge, Hw. done.
  - simpl in Hw. discriminate.
Qed.

Lemma wrapper_index_error usage request now k :
  key_of sha256_hexdigest request = Some k →
  (max_calls <= 0)%Z →
  prune period now (window usage k) = [] →
  wrapper sha256_hexdigest max_calls period func usage request now =
    (Raised IndexError, <[k := []]> usage).
Proof.
  intros (peer & Hc & ->)%key_of_Some Hle Hw.
  assert ((Z.of_nat 0 <? max_calls)%Z = false) as Hnlt
    by (apply Z.ltb_ge; lia).
  unfold window in *.
  unfold wrapper. rewrite Hc. simpl.
  destruct (usage !! sha256_hexdigest (host peer)) as [ts|] eqn:Hk.
  - rewrite Hk. simpl in Hw. rewrite Hw. simpl.
    by rewrite Hnlt.
  - rewrite lookup_insert_eq. simpl. rewrite Hnlt.
    by rewrite insert_insert_eq.
Qed.

Lemma wrapper_no_client usage request now :
  key_of sha256_hexdigest request = None →
  wrapper sha256_hexdigest max_calls period func usage request now =
    (Raised (HTTPException 400 NoClientInformation), usage).
Proof.
  intros Hc%key_of_None. unfold wrapper. by rewrite Hc.
Qed.

Local Abbreviation wrapper := (wrapper sha256_hexdigest max_calls period func).
Local Abbreviation key_of := (key_of sha256_hexdigest).
Local Abbreviation prune := (prune period).

(** The three ways a call with a client can end. *)
Lemma wrapper_cases usage request now k :
  key_of request = Some k →
  let w := prune now (window usage k) in
  ((Z.of_nat (length w) < max_calls)%Z ∧
   wrapper usage request now =
     (Returned (func request), <[k := w ++ [now]]> usage))
  ∨ (∃ oldest rest, (max_calls <= Z.of_nat (length w))%Z ∧
     w = oldest :: rest ∧
     wrapper usage request now =
       (Raised (HTTPException 429
                  (RetryAfter (inject_Z period - (now - oldest))%Q)),
        <[k := w]> usage))
  ∨ ((max_calls <= 0)%Z ∧ w = [] ∧
     wrapper usage request now = (Raised IndexError, <[k := w]> usage)).
Proof.
  intros Hk w.
  destruct (Z.lt_ge_cases (Z.of_nat (length w)) max_calls) as [Hlt|Hge].
  - left. split; [done|]. by apply wrapper_admit.
  - right. destruct (prune now (window usage k)) as [|oldest rest] eqn:Hw;
      subst w.
    + right. simpl in Hge. split_and!; [lia | done |].
      apply wrapper_index_error; [done | lia | done].
    + left. exists oldest, rest. split_and!; [done | done |].
      apply wrapper_reject; [done | by rewrite Hw | done].
Qed.

(** The Window of the checked key after a call: pruned, with [now]
    appended exactly when the call was admitted. *)
Lemma wrapper_window_same usage request now k :
  key_of request = Some k →
  window (wrapper usage request now).2 k =
    prune now (window usage k)
    ++ (if is_returned (wrapper usage request now).1 then [now] else []).
Proof.
  intros Hk.
  destruct (wrapper_cases usage request now k Hk)
    as [[_ ->]|[(o & r & _ & Hw & ->)|(_ & Hw & ->)]];
    unfold window at 1; simpl; rewrite lookup_insert_eq; simpl;
    by rewrite ?app_nil_r.
Qed.

Lemma wrapper_lookup_other usage request now k :
  key_of request ≠ Some k →
  (wrapper usage request now).2 !! k = usage !! k.
Proof.
  intros Hk.
  destruct (key_of request) as [k'|] eqn:Hk'.
  - assert (k' ≠ k) by congruence.
    destruct (wrapper_cases usage request now k' Hk')
      as [[_ ->]|[(o & r & _ & Hw & ->)|(_ & Hw & ->)]];
      simpl; by rewrite lookup_insert_ne.
  - by rewrite wrapper_no_client.
Qed.

Lemma wrapper_window_other usage request now k :
  key_of request ≠ Some k →
  window (wrapper usage request now).2 k = window usage k.
Proof.
  intros Hk. unfold window. by rewrite wrapper_lookup_other.
Qed.

Lemma wrapper_returned usage request now k :
  key_of request = Some k →
  is_returned (wrapper usage request now).1 =
    (Z.of_nat (length (prune now (window usage k))) <? max_calls)%Z.
Proof.
  intros Hk.
  destruct (wrapper_cases usage request now k Hk)
    as [[Hlt ->]|[(o & r & Hge & Hw & ->)|(Hle & Hw & ->)]]; simpl;
    symmetry; [by apply Z.ltb_lt | by apply Z.ltb_ge |].
  rewrite Hw. simpl. apply Z.ltb_ge. lia.
Qed.

(** The outcome of a call depends on the entry of its own key only. *)
Lemma wrapper_outcome_local usage usage' request now k :
  key_of request = Some k →
  usage !! k = usage' !! k →
  (wrapper usage request now).1 = (wrapper usage' request now).1
  ∧ (wrapper usage request now).2 !! k = (wrapper usage' request now).2 !! k.
Proof.
  intros Hk Heq.
  assert (window usage k = window usage' k) as Hw
    by (unfold window; by rewrite Heq).
  destruct (wrapper_cases usage request now k Hk)
    as [[Hlt ->]|[(o & r & Hge & Ho & ->)|(Hle & Ho & ->)]]; simpl.
  - rewrite Hw in Hlt |- *. rewrite (wrapper_admit usage' _ _ k) by done.
    simpl. by rewrite !lookup_insert_eq.
  - rewrite Hw in Hge, Ho |- *.
    rewrite (wrapper_reject usage' _ _ k o r) by done.
    simpl. by rewrite Ho, !lookup_insert_eq.
  - rewrite Hw in Ho |- *.
    rewrite (wrapper_index_error usage' _ _ k) by done.
    simpl. by rewrite Ho, !lookup_insert_eq.
Qed.

End Wrapper.

(** ** Serial executions from a fresh endpoint *)

Section Executions.
Context {Response : Type}.
Variable sha256_hexdigest : string → string.
Variables max_calls period : Z.
Variable func : Request → Response.

Lemma run_snoc calls c :
  run sha256_hexdigest max_calls period func (calls ++ [c]) =
  step sha256_hexdigest max_calls period func
    (run sha256_hexdigest max_calls period func calls) c.
Proof. unfold run. by rewrite fold_left_app. Qed.

Lemma step_usage st c :
  (step sha256_hexdigest max_calls period func st c).1 =
  (wrapper sha256_hexdigest max_calls period func st.1 c.1 c.2).2.
Proof.
  unfold step.
  by destruct (wrapper sha256_hexdigest max_calls period func st.1 c.1 c.2).
Qed.

Lemma step_history st c :
  (step sha256_hexdigest max_calls period func st c).2 =
  st.2
  ++ [(c, (wrapper sha256_hexdigest max_calls period func st.1 c.1 c.2).1)].
Proof.
  unfold step.
  by destruct (wrapper sha256_hexdigest max_calls period func st.1 c.1 c.2).
Qed.

Lemma admitted_times_snoc k (h : list (Call * Outcome Response)) e :
  admitted_times sha256_hexdigest k (h ++ [e]) =
  admitted_times sha256_hexdigest k h
  ++ (if admitted sha256_hexdigest k e then [e.1.2] else []).
Proof.
  unfold admitted_times. rewrite List.filter_app, map_app. simpl.
  by destruct (admitted sha256_hexdigest k e).
Qed.

Lemma clock_monotone_snoc calls c :
  clock_monotone (calls ++ [c]) →
  clock_monotone calls ∧ Forall (λ c', (c'.2 <= c.2)%Q) calls.
Proof.
  unfold clock_monotone. rewrite map_app. simpl. intros Hs. split.
  - by apply StronglySorted_app_1_l in Hs.
  - apply Forall_forall. intros c' Hc'.
    apply (StronglySorted_app_1_elem_of Qle _ _ _ _ Hs).
    + apply list_elem_of_fmap. by exists c'.
    + by apply list_elem_of_singleton.
Qed.

Lemma step_admit st request now k w :
  key_of sha256_hexdigest request = Some k →
  prune period now (window st.1 k) = w →
  (Z.of_nat (length w) < max_calls)%Z →
  step sha256_hexdigest max_calls period func st (request, now) =
    (<[k := w ++ [now]]> st.1,
     st.2 ++ [((request, now), Returned (func request))]).
Proof.
  intros Hk <- Hlt. unfold step. simpl.
  by rewrite (wrapper_admit _ _ _ _ _ _ _ k).
Qed.

Lemma step_reject st request now k oldest rest :
  key_of sha256_hexdigest request = Some k →
  prune period now (window st.1 k) = oldest :: rest →
  (max_calls <= Z.of_nat (length (oldest :: rest)))%Z →
  step sha256_hexdigest max_calls period func st (request, now) =
    (<[k := oldest :: rest]> st.1,
     st.2 ++ [((request, now),
               Raised (HTTPException 429
                         (RetryAfter (inject_Z period - (now - oldest))%Q)))]).
Proof.
  intros Hk Hw Hge. unfold step. simpl.
  rewrite (wrapper_reject _ _ _ _ _ _ _ k oldest rest); try done.
  by rewrite Hw.
Qed.

Lemma admitted_key k (c : Call) (out : Outcome Response) :
  key_of sha256_hexdigest c.1 = Some k →
  admitted sha256_hexdigest k (c, out) = is_returned out.
Proof.
  intros Hk. unfold admitted. simpl. rewrite Hk.
  by rewrite bool_decide_eq_true_2.
Qed.

Lemma admitted_other_key k (c : Call) (out : Outcome Response) :
  key_of sha256_hexdigest c.1 ≠ Some k →
  admitted sha256_hexdigest k (c, out) = false.
Proof.
  intros Hk. unfold admitted. simpl.
  destruct (key_of sha256_hexdigest c.1) as [k'|]; [|done].
  rewrite bool_decide_eq_false_2; [done | congruence].
Qed.

Local Abbreviation wrapper := (wrapper sha256_hexdigest max_calls period func).
Local Abbreviation key_of := (key_of sha256_hexdigest).
Local Abbreviation prune := (prune period).
Local Abbreviation run := (run sha256_hexdigest max_calls period func).
Local Abbreviation admitted_times :=
  (admitted_times (Response:=Response) sha256_hexdigest).

(** *** Invariant: a Window never exceeds the quota *)
Lemma run_window_length calls k :
  (0 <= max_calls)%Z →
  (Z.of_nat (length (window (run calls).1 k)) <= max_calls)%Z.
Proof.
  intros Hpos.
  induction calls as [|[request now] calls IH] using rev_ind.
  - unfold window. simpl. rewrite lookup_empty. simpl. lia.
  - rewrite run_snoc, step_usage. simpl.
    destruct (decide (key_of request = Some k)) as [Hk|Hk].
    + rewrite wrapper_window_same, (wrapper_returned _ _ _ _ _ _ _ k) by done.
      pose proof (prune_length_le period now (window (run calls).1 k)).
      destruct (Z.ltb_spec
        (Z.of_nat (length (prune now (window (run calls).1 k)))) max_calls);
        rewrite length_app; simpl; lia.
    + by rewrite wrapper_window_other.
Qed.

(** *** Invariant: retained timestamps are not in the future *)
Lemma run_window_le_clock calls T k t :
  Forall (λ c, (c.2 <= T)%Q) calls →
  In t (window (run calls).1 k) → (t <= T)%Q.
Proof.
  revert t.
  induction calls as [|[request now] calls IH] using rev_ind; intros t Hb.
  - unfold window. simpl. rewrite lookup_empty. simpl. done.
  - apply Forall_app in Hb as [Hb Hc].
    rewrite Forall_singleton in Hc. simpl in Hc.
    rewrite run_snoc, step_usage. simpl.
    destruct (decide (key_of request = Some k)) as [Hk|Hk].
    + rewrite wrapper_window_same by done.
      rewrite in_app_iff, prune_In.
      intros [[Hin _]|Hin]; [by apply IH|].
      destruct (is_returned _); simpl in Hin; [|done].
      destruct Hin as [<-|[]]. done.
    + rewrite wrapper_window_other by done. by apply IH.
Qed.

(** C5. With a non-negative quota, after any call of any execution every
    Window (so the Window of the checked key) holds at most [max_calls]
    timestamps, and so does the pruned Window on which the call was
    decided. *)
Theorem window_within_quota calls request now k :
  (0 <= max_calls)%Z →
  (Z.of_nat (length (window (wrapper (run calls).1 request now).2 k))
     <= max_calls)%Z
  ∧ (Z.of_nat (length (prune now (window (run calls).1 k))) <= max_calls)%Z.
Proof.
  intros Hpos. split.
  - pose proof (run_window_length (calls ++ [(request, now)]) k Hpos) as H.
    by rewrite run_snoc, step_usage in H.
  - pose proof (run_window_length calls k Hpos).
    pose proof (prune_length_le period now (window (run calls).1 k)).
    lia.
Qed.

End Executions.

(** ** Properties of a single call *)

Section Calls.
Context {Response : Type}.
Variable sha256_hexdigest : string → string.
Variables max_calls period : Z.
Variable func : Request → Response.

Local Abbreviation wrapper := (wrapper sha256_hexdigest max_calls period func).
Local Abbreviation key_of := (key_of sha256_hexdigest).
Local Abbreviation prune := (prune period).

(** With a positive quota a call from a client is either served or
    answered 429. *)
Lemma positive_quota_decides usage request now k :
  (0 < max_calls)%Z →
  key_of request = Some k →
  (wrapper usage request now).1 = Returned (func request)
  ∨ ∃ wait, (wrapper usage request now).1 =
            Raised (HTTPException 429 (RetryAfter wait)).
Proof.
  intros Hpos Hk.
  destruct (wrapper_cases sha256_hexdigest max_calls period func
              usage request now k Hk)
    as [[_ ->]|[(o & r & _ & _ & ->)|(Hle & _ & _)]]; simpl;
    [by left | right; eauto | lia].
Qed.


(** C7. For distinct keys [k1] and [k2], a call on [k1] leaves the entry
    of [k2] as it was, and a following call on [k2] has the outcome, and
    leaves the Window of [k2], that it would have had without the call
    on [k1]. *)
Theorem distinct_keys_independent usage r1 now1 r2 now2 k1 k2 :
  key_of r1 = Some k1 →
  key_of r2 = Some k2 →
  k1 ≠ k2 →
  (wrapper usage r1 now1).2 !! k2 = usage !! k2
  ∧ (wrapper (wrapper usage r1 now1).2 r2 now2).1 =
    (wrapper usage r2 now2).1
  ∧ (wrapper (wrapper usage r1 now1).2 r2 now2).2 !! k2 =
    (wrapper usage r2 now2).2 !! k2.
Proof.
  intros Hk1 Hk2 Hne.
  assert ((wrapper usage r1 now1).2 !! k2 = usage !! k2) as Hframe.
  { apply wrapper_lookup_other. rewrite Hk1. congruence. }
  split; [done|].
  by apply wrapper_outcome_local.
Qed.


(** C10. A request without client information is answered 400 and the
    usage mapping is returned exactly as it was received. *)
Theorem no_client_leaves_usage usage request now :
  client request = None →
  wrapper usage request now =
    (Raised (HTTPException 400 NoClientInformation), usage).
Proof.
  intros Hc. apply wrapper_no_client. by apply key_of_None.
Qed.

End Calls.

(** ** Construction and degenerate configurations *)

(** C2, as the code has it. [rate_limit] validates nothing: for every
    [max_calls] and [period], non-positive ones included, it returns the
    decorator, and decorating yields a wrapper over an empty usage mapping
    with that configuration. *)
Theorem rate_limit_always_constructs {Response}
    (sha256_hexdigest : string → string) (max_calls period : Z) :
  rate_limit (Response:=Response) sha256_hexdigest max_calls period =
    Returned (decorator sha256_hexdigest max_calls period)
  ∧ ∀ func : Request → Response,
      usage0 (decorator sha256_hexdigest max_calls period func) = ∅
      ∧ call (decorator sha256_hexdigest max_calls period func) =
        wrapper sha256_hexdigest max_calls period func.
Proof. done. Qed.

(** C2 fails at [max_calls = 0], [period = 0]: construction succeeds. *)
Lemma rate_limit_zero_config_constructs :
  ¬ ((0 <= 0 ∨ 0 <= 0)%Z →
     ¬ succeeds (rate_limit (Response:=unit) hexdigest_stub 0 0)).
Proof.
  intros H. apply H; [by left|]. by eexists.
Qed.

(** C6 fails for [max_calls = 0]: the first call of a client finds an empty
    Window, the test [len(timestamps) < max_calls] is false, and
    [timestamps[0]] raises [IndexError]; the call produces neither a served
    response nor a 429. *)
Theorem zero_quota_index_error {Response}
    (sha256_hexdigest : string → string) (period : Z)
    (func : Request → Response) (h : string) (now : Q) :
  wrapper sha256_hexdigest 0 period func ∅ (from_host h) now =
    (Raised IndexError, {[ sha256_hexdigest h := [] ]}).
Proof.
  by rewrite (wrapper_index_error _ _ _ _ _ _ _ (sha256_hexdigest h)).
Qed.

(** ** The scenario of the specification *)

(** C9. [max_calls = 2], [period = 10], one client: the calls at 0 and 1 are
    served, the call at 2 is answered 429 with wait 8, the call at 11 is
    served, and the Window then holds 11 only (0 and 1 are at least 10
    old). *)
Theorem scenario_two_per_ten {Response}
    (sha256_hexdigest : string → string) (func : Request → Response)
    (h : string) :
  run sha256_hexdigest 2 10 func
    [(from_host h, 0%Q); (from_host h, 1%Q);
     (from_host h, 2%Q); (from_host h, 11%Q)] =
  ({[ sha256_hexdigest h := [11%Q] ]},
   [((from_host h, 0%Q), Returned (func (from_host h)));
    ((from_host h, 1%Q), Returned (func (from_host h)));
    ((from_host h, 2%Q), Raised (HTTPException 429 (RetryAfter 8%Q)));
    ((from_host h, 11%Q), Returned (func (from_host h)))]).
Proof.
  set (k := sha256_hexdigest h).
  assert (key_of sha256_hexdigest (from_host h) = Some k) as Hk by done.
  unfold run. cbn [fold_left].
  rewrite (step_admit _ _ _ _ (∅, []) _ _ k [] Hk);
    [cbn [fst snd app] | by cbn [fst]; rewrite window_empty | simpl; lia].
  rewrite (step_admit _ _ _ _ (_, _) _ 1%Q k [0%Q] Hk);
    [cbn [fst snd app] | by cbn [fst]; rewrite window_insert | simpl; lia].
  rewrite (step_reject _ _ _ _ (_, _) _ 2%Q k 0%Q [1%Q] Hk);
    [cbn [fst snd app] | by cbn [fst]; rewrite window_insert | simpl; lia].
  rewrite (step_admit _ _ _ _ (_, _) _ 11%Q k [] Hk);
    [cbn [fst snd app] | by cbn [fst]; rewrite window_insert | simpl; lia].
  by rewrite !insert_insert_eq.
Qed.

(** ** Instances on concrete executions *)


Lemma window_within_quota_witness :
  (Z.of_nat (length (window
     (wrapper hexdigest_stub 2 10 (λ _, tt)
        (run hexdigest_stub 2 10 (λ _, tt)
           [(from_host "a", 0%Q); (from_host "a", 1%Q)]).1
        (from_host "a") 2%Q).2 "a")) <= 2)%Z
  ∧ (Z.of_nat (length (prune 10 2 (window
       (run hexdigest_stub 2 10 (λ _, tt)
          [(from_host "a", 0%Q); (from_host "a", 1%Q)]).1 "a"))) <= 2)%Z.
Proof.
  apply (window_within_quota hexdigest_stub 2 10 (λ _, tt)
           [(from_host "a", 0%Q); (from_host "a", 1%Q)]
           (from_host "a") 2%Q "a").
  lia.
Defined.

Lemma distinct_keys_independent_witness :
  (wrapper hexdigest_stub 1 10 (λ _, tt) ∅ (from_host "a") 0%Q).2 !! "b" =
    (∅ : gmap string (list Q)) !! "b"
  ∧ (wrapper hexdigest_stub 1 10 (λ _, tt)
       (wrapper hexdigest_stub 1 10 (λ _, tt) ∅ (from_host "a") 0%Q).2
       (from_host "b") 0%Q).1 =
    (wrapper hexdigest_stub 1 10 (λ _, tt) ∅ (from_host "b") 0%Q).1
  ∧ (wrapper hexdigest_stub 1 10 (λ _, tt)
       (wrapper hexdigest_stub 1 10 (λ _, tt) ∅ (from_host "a") 0%Q).2
       (from_host "b") 0%Q).2 !! "b" =
    (wrapper hexdigest_stub 1 10 (λ _, tt) ∅ (from_host "b") 0%Q).2 !! "b".
Proof.
  apply (distinct_keys_independent hexdigest_stub 1 10 (λ _, tt)
           ∅ (from_host "a") 0%Q (from_host "b") 0%Q "a" "b");
    [reflexivity | reflexivity | discriminate].
Defined.


Lemma no_client_leaves_usage_witness :
  wrapper hexdigest_stub 5 60 (λ _, tt)
    {[ "a" := [0%Q] ]} {| client := None |} 1%Q =
  (Raised (HTTPException 400 NoClientInformation), {[ "a" := [0%Q] ]}).
Proof.
  apply (no_client_leaves_usage hexdigest_stub 5 60 (λ _, tt)
           {[ "a" := [0%Q] ]} {| client := None |} 1%Q).
  reflexivity.
Defined.

(** ** Further properties of a single call *)

Section MoreCalls.
Context {Response : Type}.
Variable sha256_hexdigest : string → string.
Variables max_calls period : Z.
Variable func : Request → Response.

Local Abbreviation wrapper := (wrapper sha256_hexdigest max_calls period func).
Local Abbreviation key_of := (key_of sha256_hexdigest).
Local Abbreviation prune := (prune period).


Lemma wrapper_admit_idle usage request now k :
  (0 < max_calls)%Z →
  key_of request = Some k →
  (∀ t, In t (window usage k) → (inject_Z period <= now - t)%Q) →
  wrapper usage request now =
    (Returned (func request), <[k := [now]]> usage).
Proof.
  intros Hpos Hk Hold.
  assert (prune now (window usage k) = []) as Hempty.
  { destruct (prune now (window usage k)) as [|t l] eqn:Hp; [done|].
    assert (In t (prune now (window usage k))) as Hin
      by (rewrite Hp; by left).
    apply prune_In in Hin as [Hin Hrecent].
    apply Hold in Hin. lra. }
  rewrite (wrapper_admit _ _ _ _ _ _ _ k)
    by (rewrite ?Hempty; simpl; lia || done).
  by rewrite Hempty.
Qed.

End MoreCalls.

(** ** Further properties of executions *)

Lemma prune_sublist period now l : prune period now l `sublist_of` l.
Proof.
  induction l as [|t l IH]; simpl; [done|].
  destruct (Qltb (now - t) (inject_Z period));
    [by apply sublist_skip | by apply sublist_cons].
Qed.

Lemma prune_Forall (P : Q → Prop) period now l :
  Forall P l → Forall P (prune period now l).
Proof.
  induction 1 as [|t l Ht _ IH]; simpl; [done|].
  destruct (Qltb (now - t) (inject_Z period)); [by constructor | done].
Qed.

Lemma prune_sorted period now l :
  StronglySorted Qle l → StronglySorted Qle (prune period now l).
Proof.
  induction 1 as [|t l _ IH Ht]; simpl; [constructor|].
  destruct (Qltb (now - t) (inject_Z period)); [|done].
  constructor; [done | by apply prune_Forall].
Qed.

Section MoreExecutions.
Context {Response : Type}.
Variable sha256_hexdigest : string → string.
Variables max_calls period : Z.
Variable func : Request → Response.

Local Abbreviation wrapper := (wrapper sha256_hexdigest max_calls period func).
Local Abbreviation key_of := (key_of sha256_hexdigest).
Local Abbreviation prune := (prune period).
Local Abbreviation run := (run sha256_hexdigest max_calls period func).
Local Abbreviation admitted_times :=
  (admitted_times (Response:=Response) sha256_hexdigest).

Lemma wrapper_lookup_is_Some usage request now k :
  is_Some ((wrapper usage request now).2 !! k) ↔
  is_Some (usage !! k) ∨ key_of request = Some k.
Proof.
  destruct (decide (key_of request = Some k)) as [Hk|Hk].
  - split; [by right|]. intros _.
    destruct (wrapper_cases sha256_hexdigest max_calls period func
                usage request now k Hk)
      as [[_ ->]|[(o & r & _ & _ & ->)|(_ & _ & ->)]]; simpl;
      by rewrite lookup_insert_eq.
  - rewrite wrapper_lookup_other by done.
    split; [by left | by intros [?|?]].
Qed.

Lemma run_window_sorted calls k :
  clock_monotone calls → StronglySorted Qle (window (run calls).1 k).
Proof.
  induction calls as [|[request now] calls IH] using rev_ind; intros Hm.
  - rewrite window_empty. constructor.
  - apply clock_monotone_snoc in Hm as [Hm Hle].
    rewrite run_snoc, step_usage. simpl.
    destruct (decide (key_of request = Some k)) as [Hk|Hk].
    + rewrite wrapper_window_same by done.
      apply StronglySorted_app_2.
      * intros t u [Ht _]%list_elem_of_In%prune_In Hu.
        apply (run_window_le_clock _ _ _ _ _ now) in Ht; [|done].
        destruct (is_returned _); [|by apply elem_of_nil in Hu].
        by apply list_elem_of_singleton in Hu as ->.
      * apply prune_sorted. by apply IH.
      * destruct (is_returned _); repeat constructor.
    + rewrite wrapper_window_other by done. by apply IH.
Qed.

Lemma run_window_nonpositive calls k :
  (max_calls <= 0)%Z → window (run calls).1 k = [].
Proof.
  intros Hle.
  induction calls as [|[request now] calls IH] using rev_ind.
  - apply window_empty.
  - rewrite run_snoc, step_usage. simpl.
    destruct (decide (key_of request = Some k)) as [Hk|Hk].
    + rewrite wrapper_window_same, (wrapper_returned _ _ _ _ _ _ _ k), IH
        by done.
      simpl.
      by replace (Z.of_nat 0 <? max_calls)%Z with false
        by (symmetry; apply Z.ltb_ge; lia).
    + by rewrite wrapper_window_other.
Qed.

(** The usage mapping has an entry for a key exactly when some call of the
    execution came from a client with that key: entries are created by every
    such call, whatever its outcome, and are never removed. *)
Theorem usage_keys_are_callers calls k :
  is_Some ((run calls).1 !! k) ↔ ∃ c, In c calls ∧ key_of c.1 = Some k.
Proof.
  induction calls as [|[request now] calls IH] using rev_ind.
  - simpl. rewrite lookup_empty.
    split; [by intros [? ?] | by intros (? & [] & _)].
  - rewrite run_snoc, step_usage, wrapper_lookup_is_Some, IH. simpl. split.
    + intros [(c & Hin & Hk)|Hk].
      * exists c. rewrite in_app_iff. auto.
      * exists (request, now). rewrite in_app_iff. simpl. auto.
    + intros (c & [Hin|[<-|[]]]%in_app_iff & Hk); [left; eauto | by right].
Qed.

(** Every Window is a subsequence of the clock readings of the admitted
    calls of its key: the reading of a rejected call is never stored, and
    the order of admission is kept. *)
Theorem window_holds_admitted_only calls k :
  window (run calls).1 k `sublist_of` admitted_times k (run calls).2.
Proof.
  induction calls as [|[request now] calls IH] using rev_ind.
  - by rewrite window_empty.
  - rewrite run_snoc, step_usage, step_history, admitted_times_snoc. simpl.
    destruct (decide (key_of request = Some k)) as [Hk|Hk].
    + rewrite wrapper_window_same, admitted_key by done.
      apply sublist_app; [|done].
      etrans; [apply prune_sublist | done].
    + rewrite wrapper_window_other, admitted_other_key, app_nil_r by done.
      done.
Qed.

(** When the clock never goes back, every Window is in non-decreasing order,
    so its first element, the one [wait] is computed from, is its oldest. *)
Theorem window_oldest_first calls k :
  clock_monotone calls →
  StronglySorted Qle (window (run calls).1 k)
  ∧ ∀ oldest rest,
      window (run calls).1 k = oldest :: rest →
      Forall (λ t, (oldest <= t)%Q) rest.
Proof.
  intros Hm. pose proof (run_window_sorted calls k Hm) as Hs.
  split; [done|]. intros oldest rest Hw. rewrite Hw in Hs.
  by apply StronglySorted_cons in Hs as [? _].
Qed.

(** With [max_calls <= 0] no call is ever served or answered 429: in every
    execution each call of a client raises [IndexError], each request
    without client is answered 400, and every Window stays empty. *)
Theorem nonpositive_quota_never_serves calls :
  (max_calls <= 0)%Z →
  (∀ c out, In (c, out) (run calls).2 →
     out = match key_of c.1 with
           | Some _ => Raised IndexError
           | None => Raised (HTTPException 400 NoClientInformation)
           end)
  ∧ ∀ k, window (run calls).1 k = [].
Proof.
  intros Hle. split; [|intros k; by apply run_window_nonpositive].
  induction calls as [|[request now] calls IH] using rev_ind.
  - intros c out [].
  - intros c out. rewrite run_snoc, step_history, in_app_iff. simpl.
    intros [Hin|[Heq|[]]]; [by apply IH|].
    injection Heq as <- <-. simpl.
    destruct (key_of request) as [k|] eqn:Hk.
    + rewrite (wrapper_index_error _ _ _ _ _ _ _ k); try done.
      by rewrite run_window_nonpositive.
    + by rewrite wrapper_no_client.
Qed.

(** With [period <= 0], a positive quota and a clock that never goes back,
    nothing is limited: every call of a client is served. *)
Theorem nonpositive_period_never_limits calls :
  (period <= 0)%Z →
  (0 < max_calls)%Z →
  clock_monotone calls →
  ∀ c out, In (c, out) (run calls).2 →
    is_Some (key_of c.1) → out = Returned (func c.1).
Proof.
  intros Hper Hpos.
  rewrite Zle_Qle in Hper. change (inject_Z 0) with 0%Q in Hper.
  induction calls as [|[request now] calls IH] using rev_ind; intros Hm.
  - intros c out [].
  - apply clock_monotone_snoc in Hm as [Hm Hle].
    intros c out. rewrite run_snoc, step_history, in_app_iff. simpl.
    intros [Hin|[Heq|[]]]; [by apply IH|].
    injection Heq as <- <-. simpl. intros [k Hk].
    rewrite (wrapper_admit_idle _ _ _ _ _ _ _ k); try done.
    intros t Ht.
    apply (run_window_le_clock _ _ _ _ _ now) in Ht; [lra | done].
Qed.

End MoreExecutions.

(** ** Executions seen from one key *)

Section Keys.
Context {Response : Type}.
Variable sha256_hexdigest : string → string.
Variables max_calls period : Z.
Variable func : Request → Response.

Local Abbreviation wrapper := (wrapper sha256_hexdigest max_calls period func).
Local Abbreviation key_of := (key_of sha256_hexdigest).
Local Abbreviation run := (run sha256_hexdigest max_calls period func).

(** What an execution does to one key is what the execution of that key's
    calls alone does: the entry of the key at the end and the outcomes of
    its calls, in order, are the same whatever calls of other clients, or
    without client, are interleaved. *)
Theorem execution_projects_on_key calls k :
  (run calls).1 !! k =
    (run (List.filter (λ c : Call, bool_decide (key_of c.1 = Some k))
            calls)).1 !! k
  ∧ List.filter (λ e : Call * Outcome Response,
                   bool_decide (key_of e.1.1 = Some k)) (run calls).2 =
    (run (List.filter (λ c : Call, bool_decide (key_of c.1 = Some k))
            calls)).2.
Proof.
  induction calls as [|[request now] calls [IHu IHh]] using rev_ind;
    [done|].
  rewrite List.filter_app, run_snoc, step_usage, step_history,
    List.filter_app. simpl.
  destruct (decide (key_of request = Some k)) as [Hk|Hk].
  - rewrite (bool_decide_eq_true_2 _ Hk).
    rewrite run_snoc, step_usage, step_history. simpl.
    destruct (wrapper_outcome_local sha256_hexdigest max_calls period func
                _ _ request now k Hk IHu) as [-> ->].
    by rewrite IHh.
  - rewrite (bool_decide_eq_false_2 _ Hk), !app_nil_r.
    by rewrite wrapper_lookup_other.
Qed.

End Keys.

(** ** Further instances on concrete executions *)


Lemma window_oldest_first_witness :
  StronglySorted Qle
    (window (run hexdigest_stub 2 10 (λ _, tt)
               [(from_host "a", 0%Q); (from_host "a", 1%Q)]).1 "a")
  ∧ ∀ oldest rest,
      window (run hexdigest_stub 2 10 (λ _, tt)
                [(from_host "a", 0%Q); (from_host "a", 1%Q)]).1 "a" =
        oldest :: rest →
      Forall (λ t, (oldest <= t)%Q) rest.
Proof.
  apply (window_oldest_first hexdigest_stub 2 10 (λ _, tt)
           [(from_host "a", 0%Q); (from_host "a", 1%Q)] "a").
  clock_literal.
Defined.

Lemma nonpositive_quota_never_serves_witness :
  (∀ c out,
     In (c, out) (run hexdigest_stub 0 60 (λ _, tt)
                    [(from_host "a", 0%Q); ({| client := None |}, 1%Q)]).2 →
     out = match key_of hexdigest_stub c.1 with
           | Some _ => Raised IndexError
           | None => Raised (HTTPException 400 NoClientInformation)
           end)
  ∧ ∀ k, window (run hexdigest_stub 0 60 (λ _, tt)
                   [(from_host "a", 0%Q); ({| client := None |}, 1%Q)]).1 k
         = [].
Proof.
  apply (nonpositive_quota_never_serves hexdigest_stub 0 60 (λ _, tt)
           [(from_host "a", 0%Q); ({| client := None |}, 1%Q)]).
  lia.
Defined.

Lemma nonpositive_period_never_limits_witness :
  (wrapper hexdigest_stub 1 0 (λ _, tt)
     (run hexdigest_stub 1 0 (λ _, tt) [(from_host "a", 0%Q)]).1
     (from_host "a") 0%Q).1 = Returned tt.
Proof.
  apply (nonpositive_period_never_limits hexdigest_stub 1 0 (λ _, tt)
           [(from_host "a", 0%Q); (from_host "a", 0%Q)]
           ltac:(lia) ltac:(lia) ltac:(clock_literal)
           (from_host "a", 0%Q)).
  - vm_compute. right. left. reflexivity.
  - vm_compute. eexists. reflexivity.
Defined.

(** * Binary64 arithmetic

    Facts about the Standard Library's specification of binary64
    subtraction and conversion, through the value of a double counted in
    units of [2^-1074]: on non-negative values the result is the exact value
    rounded by [round_units], which is monotone and leaves doubles
    unchanged. *)

Module Rounding.
Import Binary64.
Local Open Scope Z_scope.

Lemma iter_pos_nat {A} (f : A -> A) p x :
  SpecFloat.iter_pos f p x = Nat.iter (Pos.to_nat p) f x.
Proof.
  revert x. induction p as [p IH|p IH|]; intros x.
  - change (SpecFloat.iter_pos f p~1 x)
      with (SpecFloat.iter_pos f p (SpecFloat.iter_pos f p (f x))).
    rewrite !IH, Pos2Nat.inj_xI.
    replace (S (2 * Pos.to_nat p)) with (Pos.to_nat p + (Pos.to_nat p + 1))%nat
      by lia.
    rewrite !Nat.iter_add. reflexivity.
  - change (SpecFloat.iter_pos f p~0 x)
      with (SpecFloat.iter_pos f p (SpecFloat.iter_pos f p x)).
    rewrite !IH, Pos2Nat.inj_xO.
    replace (2 * Pos.to_nat p)%nat with (Pos.to_nat p + Pos.to_nat p)%nat
      by lia.
    rewrite Nat.iter_add. reflexivity.
  - reflexivity.
Qed.

Lemma shr_1_nonneg m r s :
  0 <= m ->
  shr_1 (Build_shr_record m r s) =
  Build_shr_record (m / 2) (Z.odd m) (r || s).
Proof.
  intros Hm. destruct m as [|p|p]; [reflexivity| |lia].
  destruct p as [p|p|]; simpl.
  - f_equal. rewrite Pos2Z.inj_xI.
    apply (Z.div_unique_pos _ _ _ 1); lia.
  - f_equal. rewrite Pos2Z.inj_xO.
    apply (Z.div_unique_pos _ _ _ 0); lia.
  - reflexivity.
Qed.

Lemma shr_iter m n :
  0 <= m ->
  Nat.iter (S n) shr_1 (Build_shr_record m false false) =
  Build_shr_record (m / 2 ^ Z.of_nat (S n))
    (Z.odd (m / 2 ^ Z.of_nat n))
    (negb (m mod 2 ^ Z.of_nat n =? 0)).
Proof.
  intros Hm. induction n as [|n IH].
  - change (Nat.iter 1 shr_1 ?x) with (shr_1 x).
    rewrite shr_1_nonneg by assumption.
    change (2 ^ Z.of_nat 1) with 2. change (2 ^ Z.of_nat 0) with 1.
    rewrite Z.div_1_r, Z.mod_1_r. reflexivity.
  - change (Nat.iter (S (S n)) shr_1 ?x) with (shr_1 (Nat.iter (S n) shr_1 x)).
    rewrite IH.
    assert (0 < 2 ^ Z.of_nat n) as Hp by (apply Z.pow_pos_nonneg; lia).
    assert (0 < 2 ^ Z.of_nat (S n)) as Hp' by (apply Z.pow_pos_nonneg; lia).
    assert (2 ^ Z.of_nat (S n) = 2 ^ Z.of_nat n * 2) as Hs
      by (rewrite Nat2Z.inj_succ, Z.pow_succ_r; lia).
    assert (2 ^ Z.of_nat (S (S n)) = 2 ^ Z.of_nat (S n) * 2) as Hs'
      by (rewrite (Nat2Z.inj_succ (S n)), Z.pow_succ_r; lia).
    rewrite shr_1_nonneg by (apply Z.div_pos; lia).
    f_equal.
    + rewrite Hs'. rewrite Z.div_div by lia. reflexivity.
    + (* sticky *)
      rewrite Hs.
      rewrite Z.rem_mul_r by lia.
      destruct (Z.odd (m / 2 ^ Z.of_nat n)) eqn:Hodd.
      * simpl. symmetry. apply Bool.negb_true_iff, Z.eqb_neq.
        rewrite Zmod_odd, Hodd.
        pose proof (Z.mod_pos_bound m (2 ^ Z.of_nat n) Hp). lia.
      * simpl. rewrite Zmod_odd, Hodd. f_equal. f_equal. lia.
Qed.

Lemma digits2_size m : digits2_pos m = Pos.size m.
Proof. induction m; simpl; congruence. Qed.

Lemma digits2_log2 m : Zpos (digits2_pos m) = Z.log2 (Zpos m) + 1.
Proof.
  rewrite digits2_size. destruct m; simpl; try reflexivity; lia.
Qed.

Lemma iter_xO m d : Zpos (Pos.iter xO m d) = Zpos m * 2 ^ Zpos d.
Proof.
  revert m. induction d using Pos.peano_ind; intros m.
  - simpl. lia.
  - rewrite Pos.iter_succ. rewrite Pos2Z.inj_xO, IHd.
    rewrite Pos2Z.inj_succ, Z.pow_succ_r by lia. lia.
Qed.

Lemma shr_round m n :
  0 <= m ->
  let mrs := Nat.iter (S n) shr_1 (Build_shr_record m false false) in
  round_nearest_even (shr_m mrs) (loc_of_shr_record mrs) =
  div_half_even m (2 ^ Z.of_nat (S n)).
Proof.
  intros Hm mrs. subst mrs. rewrite shr_iter by assumption.
  assert (0 < 2 ^ Z.of_nat n) as Hp by (apply Z.pow_pos_nonneg; lia).
  assert (2 ^ Z.of_nat (S n) = 2 ^ Z.of_nat n * 2) as Hs
    by (rewrite Nat2Z.inj_succ, Z.pow_succ_r; lia).
  assert (m mod 2 ^ Z.of_nat (S n) =
          m mod 2 ^ Z.of_nat n
          + 2 ^ Z.of_nat n * (if Z.odd (m / 2 ^ Z.of_nat n) then 1 else 0))
    as Hmod by (rewrite Hs, Z.rem_mul_r, Zmod_odd by lia; reflexivity).
  unfold div_half_even. cbn [shr_m]. rewrite Hmod.
  pose proof (Z.mod_pos_bound m (2 ^ Z.of_nat n) Hp) as Hb.
  destruct (Z.odd (m / 2 ^ Z.of_nat n)) eqn:Hodd;
    destruct (Z.eqb_spec (m mod 2 ^ Z.of_nat n) 0) as [H0|H0];
    cbv [loc_of_shr_record round_nearest_even negb];
    match goal with
    | |- context [(?a ?= ?b)] =>
      first
        [ replace (a ?= b) with Eq by (symmetry; apply Z.compare_eq_iff; lia)
        | replace (a ?= b) with Gt by (symmetry; apply Z.compare_gt_iff; lia)
        | replace (a ?= b) with Lt by (symmetry; apply Z.compare_lt_iff; lia) ]
    end; reflexivity.
Qed.
Lemma bra_exact s m1 E :
  Z.max (Z.log2 (Zpos m1) + 1 + E - 53) (-1074) = E ->
  binary_round_aux 53 1024 s (Zpos m1) E loc_Exact =
    if E <=? 971 then S754_finite s m1 E else S754_infinity s.
Proof.
  intros HE.
  assert (shr_fexp 53 1024 (Zpos m1) E loc_Exact =
          (Build_shr_record (Zpos m1) false false, E)) as Hshr.
  { unfold shr_fexp, fexp, emin. cbn [Zdigits2]. rewrite digits2_log2.
    replace (Z.max (Z.log2 (Z.pos m1) + 1 + E - 53) (3 - 1024 - 53) - E)
      with 0 by lia.
    reflexivity. }
  unfold binary_round_aux. rewrite Hshr.
  cbn [shr_m loc_of_shr_record round_nearest_even]. rewrite Hshr.
  cbn [shr_m]. reflexivity.
Qed.

Lemma pow2_pos k : 0 <= k -> 0 < 2 ^ k.
Proof. intros. apply Z.pow_pos_nonneg; lia. Qed.

Lemma log2_bounds m : 0 < m -> 2 ^ Z.log2 m <= m < 2 ^ (Z.log2 m + 1).
Proof.
  intros H. pose proof (Z.log2_spec m H). rewrite <- Z.add_1_r in *. lia.
Qed.

Lemma div_half_even_bounds n d :
  0 <= n -> 0 < d -> n / d <= div_half_even n d <= n / d + 1.
Proof.
  intros Hn Hd. unfold div_half_even.
  destruct (2 * (n mod d) ?= d); [destruct (Z.even (n / d))| |]; lia.
Qed.

Lemma bra_round s m e :
  -1074 <= e ->
  53 < Z.log2 (Zpos m) + 1 ->
  let n := Z.log2 (Zpos m) + 1 - 53 in
  let q := div_half_even (Zpos m) (2 ^ n) in
  2 ^ 52 <= q <= 2 ^ 53 /\
  binary_round_aux 53 1024 s (Zpos m) e loc_Exact =
    if q =? 2 ^ 53 then
      if e + n + 1 <=? 971 then S754_finite s (Z.to_pos (2 ^ 52)) (e + n + 1)
      else S754_infinity s
    else
      if e + n <=? 971 then S754_finite s (Z.to_pos q) (e + n)
      else S754_infinity s.
Proof.
  intros He Hd n q.
  assert (0 < n) as Hn by (subst n; lia).
  pose proof (log2_bounds (Zpos m) ltac:(lia)) as [Hlo Hhi].
  assert (0 < 2 ^ n) as Hpn by (apply pow2_pos; lia).
  assert (2 ^ 52 <= Zpos m / 2 ^ n < 2 ^ 53) as Hq.
  { split.
    - apply Z.div_le_lower_bound; [lia|].
      rewrite <- Z.pow_add_r by lia.
      replace (n + 52) with (Z.log2 (Zpos m)) by (subst n; lia). lia.
    - apply Z.div_lt_upper_bound; [lia|].
      rewrite <- Z.pow_add_r by lia.
      replace (n + 53) with (Z.log2 (Zpos m) + 1) by (subst n; lia). lia. }
  pose proof (div_half_even_bounds (Zpos m) (2 ^ n) ltac:(lia) Hpn) as Hqb.
  fold q in Hqb.
  split; [lia|].
  (* first shift *)
  destruct n as [|p|p] eqn:Hnp; try lia.
  assert (shr_fexp 53 1024 (Zpos m) e loc_Exact =
          (SpecFloat.iter_pos shr_1 p (Build_shr_record (Zpos m) false false),
           e + Zpos p))
    as Hshr1.
  { unfold shr_fexp, fexp, emin. cbn [Zdigits2]. rewrite digits2_log2.
    replace (Z.max (Z.log2 (Z.pos m) + 1 + e - 53) (3 - 1024 - 53) - e)
      with (Zpos p) by lia.
    reflexivity. }
  unfold binary_round_aux. rewrite Hshr1.
  rewrite iter_pos_nat.
  destruct (Pos2Nat.is_succ p) as [n' Hn'].
  rewrite Hn'.
  pose proof (shr_round (Zpos m) n' ltac:(lia)) as Hr. cbv zeta in Hr.
  rewrite Hr.
  replace (Z.of_nat (S n')) with (Zpos p) by lia.
  fold q.
  (* second shift *)
  destruct (Z.eqb_spec q (2 ^ 53)) as [Hc|Hc].
  - rewrite Hc.
    replace (shr_fexp 53 1024 (2 ^ 53) (e + Z.pos p) loc_Exact)
      with (Build_shr_record (2 ^ 52) false false, e + Z.pos p + 1).
    + cbn [shr_m]. reflexivity.
    + unfold shr_fexp, fexp, emin, shr.
      replace (Z.max (Zdigits2 (2 ^ 53) + (e + Z.pos p) - 53) (3 - 1024 - 53)
               - (e + Z.pos p)) with 1
        by (change (Zdigits2 (2 ^ 53)) with 54; lia).
      reflexivity.
  - assert (0 < q) as Hq0 by lia.
    destruct q as [|mq|mq] eqn:Hqe; try lia.
    assert (Z.log2 (Zpos mq) = 52) as Hl.
    { apply Z.log2_unique; lia. }
    replace (shr_fexp 53 1024 (Zpos mq) (e + Z.pos p) loc_Exact)
      with (Build_shr_record (Zpos mq) false false, e + Z.pos p).
    + cbn [shr_m]. reflexivity.
    + unfold shr_fexp, fexp, emin. cbn [Zdigits2]. rewrite digits2_log2, Hl.
      replace (Z.max (52 + 1 + (e + Z.pos p) - 53) (3 - 1024 - 53)
               - (e + Z.pos p)) with 0 by lia.
      reflexivity.
Qed.

Lemma div_half_even_scale n d K :
  0 < d -> 0 < K -> div_half_even (n * K) (d * K) = div_half_even n d.
Proof.
  intros Hd HK. unfold div_half_even.
  rewrite Z.div_mul_cancel_r, Z.mul_mod_distr_r by lia.
  replace (2 * (n mod d * K)) with (2 * (n mod d) * K) by lia.
  rewrite <- Zmult_compare_compat_r by lia. reflexivity.
Qed.

Lemma div_half_even_exact q d :
  0 < d -> div_half_even (q * d) d = q.
Proof.
  intros Hd. unfold div_half_even.
  rewrite Z.mod_mul, Z.div_mul by lia.
  replace (2 * 0 ?= d) with Lt by (symmetry; apply Z.compare_lt_iff; lia).
  reflexivity.
Qed.

Lemma binary_round_units s m e :
  -1074 <= e ->
  let u := Zpos m * 2 ^ (e + 1074) in
  (round_units u < 2 ^ 2098 /\
   exists m' e',
     binary_round 53 1024 s m e = S754_finite s m' e' /\
     -1074 <= e' <= 971 /\ Zpos m' < 2 ^ 53 /\
     Zpos m' * 2 ^ (e' + 1074) = round_units u)
  \/ (2 ^ 2098 <= round_units u /\
      binary_round 53 1024 s m e = S754_infinity s).
Proof.
  intros He u.
  pose proof (log2_bounds (Zpos m) ltac:(lia)) as [Hlo Hhi].
  assert (0 < 2 ^ (e + 1074)) as HK by (apply pow2_pos; lia).
  assert (Z.log2 u = Z.log2 (Zpos m) + (e + 1074)) as Hlu.
  { subst u. rewrite Z.log2_mul_pow2 by lia. lia. }
  pose proof (Z.log2_nonneg (Zpos m)) as Hl0.
  unfold binary_round, fexp, emin. rewrite digits2_log2.
  set (E := Z.max (Z.log2 (Z.pos m) + 1 + e - 53) (3 - 1024 - 53)).
  destruct (Z.le_gt_cases (Z.log2 (Zpos m) + 1) 53) as [Hd|Hd].
  - (* the value is representable with exponent [E <= e] *)
    assert (E <= e) as HEe by (subst E; lia).
    assert (exists m1, shl_align m e E = (m1, E) /\
                       Zpos m1 = Zpos m * 2 ^ (e - E)) as (m1 & Hal & Hm1).
    { unfold shl_align. destruct (E - e) as [|k|k] eqn:Hk; try lia.
      - exists m. replace E with e by lia. rewrite Z.sub_diag.
        split; [reflexivity|lia].
      - exists (Pos.iter xO m k). split; [reflexivity|].
        rewrite iter_xO. f_equal. f_equal. lia. }
    rewrite Hal.
    assert (Z.log2 (Zpos m1) = Z.log2 (Zpos m) + (e - E)) as Hl1.
    { rewrite Hm1, Z.log2_mul_pow2 by lia. lia. }
    rewrite bra_exact by (rewrite Hl1; subst E; lia).
    assert (u = Zpos m1 * 2 ^ (E + 1074)) as Hu.
    { subst u. rewrite Hm1, <- Z.mul_assoc, <- Z.pow_add_r by (subst E; lia).
      f_equal. f_equal. lia. }
    assert (round_units u = u) as Hru.
    { unfold round_units. rewrite Hlu.
      replace (Z.max (Z.log2 (Z.pos m) + (e + 1074) - 52) 0) with (E + 1074)
        by (subst E; lia).
      rewrite Hu at 1.
      rewrite div_half_even_exact by (apply pow2_pos; subst E; lia).
      lia. }
    pose proof (log2_bounds (Zpos m1) ltac:(lia)) as [Hlo1 Hhi1].
    assert (Zpos m1 < 2 ^ 53) as Hm53.
    { eapply Z.lt_le_trans; [exact Hhi1|].
      apply Z.pow_le_mono_r; [lia|]. rewrite Hl1. subst E. lia. }
    rewrite Hru.
    destruct (Z.leb_spec E 971) as [HE|HE].
    + left. split.
      * rewrite Hu.
        apply Z.lt_le_trans with (2 ^ 53 * 2 ^ (E + 1074)).
        -- apply Z.mul_lt_mono_pos_r; [apply pow2_pos; subst E; lia | lia].
        -- rewrite <- Z.pow_add_r by (subst E; lia).
           apply Z.pow_le_mono_r; lia.
      * exists m1, E.
        split; [reflexivity|]. split; [subst E; lia|]. split; lia.
    + right. split; [|reflexivity].
      rewrite Hu.
      assert (Z.log2 (Zpos m1) = 52) as Hl52 by (rewrite Hl1; subst E; lia).
      rewrite Hl52 in Hlo1.
      apply Z.le_trans with (2 ^ 52 * 2 ^ (E + 1074)).
      * rewrite <- Z.pow_add_r by lia. apply Z.pow_le_mono_r; lia.
      * apply Z.mul_le_mono_nonneg_r; [|lia].
        apply Z.lt_le_incl, pow2_pos. lia.
  - (* more than 53 bits: the low [n] bits are rounded away *)
    assert (E = e + (Z.log2 (Zpos m) + 1 - 53)) as HE by (subst E; lia).
    assert (shl_align m e E = (m, e)) as Hal.
    { unfold shl_align.
      destruct (E - e) as [|k|k] eqn:Hk; try reflexivity. lia. }
    rewrite Hal.
    destruct (bra_round s m e He Hd) as [Hq Hbra]. cbv zeta in Hq, Hbra.
    rewrite Hbra. clear Hbra.
    set (n := Z.log2 (Zpos m) + 1 - 53) in *.
    set (q := div_half_even (Zpos m) (2 ^ n)) in *.
    assert (0 < 2 ^ n) as Hpn by (apply pow2_pos; lia).
    assert (round_units u = q * 2 ^ (E + 1074)) as Hru.
    { unfold round_units. rewrite Hlu.
      replace (Z.max (Z.log2 (Z.pos m) + (e + 1074) - 52) 0) with (E + 1074)
        by lia.
      f_equal. subst u q.
      replace (2 ^ (E + 1074)) with (2 ^ n * 2 ^ (e + 1074))
        by (rewrite <- Z.pow_add_r by lia; f_equal; lia).
      apply div_half_even_scale; lia. }
    rewrite Hru.
    assert (0 < 2 ^ (E + 1074)) as HKE by (apply pow2_pos; lia).
    destruct (Z.eqb_spec q (2 ^ 53)) as [Hc|Hc].
    + rewrite Hc. rewrite <- Z.pow_add_r by lia.
      destruct (Z.leb_spec (e + n + 1) 971) as [Hov|Hov].
      * left. split; [apply Z.pow_lt_mono_r; lia|].
        exists (Z.to_pos (2 ^ 52)), (e + n + 1).
        split; [reflexivity|]. split; [lia|]. split; [reflexivity|].
        change (Z.pos (Z.to_pos (2 ^ 52))) with (2 ^ 52).
        rewrite <- Z.pow_add_r by lia. f_equal. lia.
      * right. split; [|reflexivity]. apply Z.pow_le_mono_r; lia.
    + destruct (Z.leb_spec (e + n) 971) as [Hov|Hov].
      * left. split.
        -- apply Z.lt_le_trans with (2 ^ 53 * 2 ^ (E + 1074)).
           ++ apply Z.mul_lt_mono_pos_r; lia.
           ++ rewrite <- Z.pow_add_r by lia. apply Z.pow_le_mono_r; lia.
        -- exists (Z.to_pos q), (e + n).
           rewrite Z2Pos.id by lia.
           split; [reflexivity|]. split; [lia|]. split; [lia|].
           f_equal. f_equal. lia.
      * right. split; [|reflexivity].
        apply Z.le_trans with (2 ^ 52 * 2 ^ (E + 1074)).
        -- rewrite <- Z.pow_add_r by lia. apply Z.pow_le_mono_r; lia.
        -- apply Z.mul_le_mono_nonneg_r; lia.
Qed.

(** ** Properties of [round_units] *)

Lemma div_half_even_mono n1 n2 d :
  0 <= n1 <= n2 -> 0 < d -> div_half_even n1 d <= div_half_even n2 d.
Proof.
  intros Hn Hd.
  assert (n1 / d <= n2 / d) as Hq by (apply Z.div_le_mono; lia).
  pose proof (div_half_even_bounds n1 d ltac:(lia) Hd) as H1.
  pose proof (div_half_even_bounds n2 d ltac:(lia) Hd) as H2.
  destruct (Z.eq_dec (n1 / d) (n2 / d)) as [He|He]; [|lia].
  pose proof (Z.div_mod n1 d ltac:(lia)) as D1.
  pose proof (Z.div_mod n2 d ltac:(lia)) as D2.
  assert (n1 mod d <= n2 mod d) as Hr by (rewrite He in D1; nia).
  unfold div_half_even. rewrite He.
  destruct (Z.compare_spec (2 * (n1 mod d)) d);
    destruct (Z.compare_spec (2 * (n2 mod d)) d);
    destruct (Z.even (n2 / d)); lia.
Qed.

Lemma round_units_bounds u :
  0 < u -> 2 ^ Z.log2 u <= round_units u <= 2 ^ (Z.log2 u + 1).
Proof.
  intros Hu. unfold round_units.
  pose proof (log2_bounds u Hu) as [Hlo Hhi].
  pose proof (Z.log2_nonneg u) as Hl.
  set (s := Z.max (Z.log2 u - 52) 0).
  assert (0 <= s <= Z.log2 u) as Hs by (subst s; lia).
  assert (0 < 2 ^ s) as Hps by (apply pow2_pos; lia).
  pose proof (div_half_even_bounds u (2 ^ s) ltac:(lia) Hps) as Hb.
  assert (2 ^ Z.log2 u = 2 ^ (Z.log2 u - s) * 2 ^ s) as E1
    by (rewrite <- Z.pow_add_r by lia; f_equal; lia).
  assert (2 ^ (Z.log2 u + 1) = 2 ^ (Z.log2 u + 1 - s) * 2 ^ s) as E2
    by (rewrite <- Z.pow_add_r by lia; f_equal; lia).
  split.
  - rewrite E1. apply Z.mul_le_mono_nonneg_r; [lia|].
    apply Z.le_trans with (u / 2 ^ s); [|lia].
    apply Z.div_le_lower_bound; lia.
  - rewrite E2. apply Z.mul_le_mono_nonneg_r; [lia|].
    assert (u / 2 ^ s < 2 ^ (Z.log2 u + 1 - s)); [|lia].
    apply Z.div_lt_upper_bound; lia.
Qed.

Lemma round_units_0 : round_units 0 = 0.
Proof. reflexivity. Qed.

Lemma round_units_nonneg u : 0 <= u -> 0 <= round_units u.
Proof.
  intros Hu. destruct (Z.eq_dec u 0) as [->|Hne]; [rewrite round_units_0; lia|].
  pose proof (round_units_bounds u ltac:(lia)) as [H _].
  pose proof (pow2_pos (Z.log2 u) (Z.log2_nonneg u)). lia.
Qed.


(** Rounding is monotone. *)
Lemma round_units_mono u1 u2 :
  0 <= u1 <= u2 -> round_units u1 <= round_units u2.
Proof.
  intros [H1 H12].
  destruct (Z.eq_dec u1 0) as [->|Hne].
  { rewrite round_units_0. apply round_units_nonneg. lia. }
  assert (0 < u1) as Hu1 by lia. assert (0 < u2) as Hu2 by lia.
  pose proof (Z.log2_le_mono u1 u2 H12) as Hl.
  pose proof (Z.log2_nonneg u1) as Hl1.
  destruct (Z.eq_dec (Z.max (Z.log2 u1 - 52) 0) (Z.max (Z.log2 u2 - 52) 0))
    as [Hs|Hs].
  - unfold round_units. rewrite Hs.
    set (s := Z.max (Z.log2 u2 - 52) 0).
    assert (0 < 2 ^ s) as Hps by (apply pow2_pos; subst s; lia).
    apply Z.mul_le_mono_nonneg_r; [lia|].
    apply div_half_even_mono; lia.
  - pose proof (round_units_bounds u1 Hu1) as [_ Hhi].
    pose proof (round_units_bounds u2 Hu2) as [Hlo _].
    apply Z.le_trans with (2 ^ (Z.log2 u1 + 1)); [exact Hhi|].
    apply Z.le_trans with (2 ^ Z.log2 u2); [|exact Hlo].
    apply Z.pow_le_mono_r; lia.
Qed.

(** Values with at most 53 significant bits are not changed. *)
Lemma round_units_exact q k :
  0 <= q < 2 ^ 53 -> 0 <= k -> round_units (q * 2 ^ k) = q * 2 ^ k.
Proof.
  intros [Hq0 Hq] Hk.
  destruct (Z.eq_dec q 0) as [->|Hne]; [reflexivity|].
  assert (Z.log2 q < 53) as Hl by (apply Z.log2_lt_pow2; lia).
  pose proof (Z.log2_nonneg q) as Hl0.
  unfold round_units. rewrite Z.log2_mul_pow2 by lia.
  set (s := Z.max (k + Z.log2 q - 52) 0).
  assert (0 <= s <= k) as Hs by (subst s; lia).
  assert (0 < 2 ^ s) as Hps by (apply pow2_pos; lia).
  assert (q * 2 ^ k = (q * 2 ^ (k - s)) * 2 ^ s) as E.
  { rewrite <- Z.mul_assoc, <- Z.pow_add_r by lia. f_equal. f_equal. lia. }
  rewrite E at 1. rewrite div_half_even_exact by lia. lia.
Qed.

(** ** Doubles as multiples of [2^-1074] *)

Lemma is_reading_fin_repr x : is_reading x = true -> fin_repr x.
Proof.
  destruct x as [s| |  |s m e]; simpl; try easy.
  unfold bounded, canonical_mantissa, fexp, emin, prec, emax.
  rewrite Bool.andb_true_iff, Z.eqb_eq, Z.leb_le, digits2_log2.
  intros [Hc He].
  split; [lia|].
  pose proof (log2_bounds (Zpos m) ltac:(lia)) as [_ Hhi].
  eapply Z.lt_le_trans; [exact Hhi|]. apply Z.pow_le_mono_r; lia.
Qed.

Lemma cond_Zopp_mul s a b : cond_Zopp s (a * b) = cond_Zopp s a * b.
Proof. destruct s; simpl; lia. Qed.

Lemma units_bound x : fin_repr x -> Z.abs (units x) < 2 ^ 2098.
Proof.
  destruct x as [s| |  |s m e]; simpl; try easy.
  intros [He Hm].
  assert (0 < 2 ^ (e + 1074)) as HK by (apply pow2_pos; lia).
  assert (Zpos m * 2 ^ (e + 1074) < 2 ^ 2098).
  { apply Z.lt_le_trans with (2 ^ 53 * 2 ^ (e + 1074)).
    - apply Z.mul_lt_mono_pos_r; lia.
    - rewrite <- Z.pow_add_r by lia. apply Z.pow_le_mono_r; lia. }
  destruct s; simpl; lia.
Qed.


(** The exact comparison with an int, in units. *)
Lemma flt_int_units x z :
  fin_repr x -> flt_int x z = (units x <? z * 2 ^ 1074).
Proof.
  destruct x as [s| |  |s m e]; simpl; try easy.
  - intros _. apply Bool.eq_iff_eq_true. rewrite !Z.ltb_lt. lia.
  - intros [He Hm]. rewrite cond_Zopp_mul.
    set (v := cond_Zopp s (Zpos m)).
    apply Bool.eq_iff_eq_true.
    destruct (Z.leb_spec 0 e) as [H0|H0]; rewrite !Z.ltb_lt.
    + replace (2 ^ (e + 1074)) with (2 ^ e * 2 ^ 1074)
        by (rewrite <- Z.pow_add_r by lia; reflexivity).
      rewrite Z.mul_assoc.
      rewrite <- Z.mul_lt_mono_pos_r by (apply pow2_pos; lia). tauto.
    + replace (2 ^ 1074) with (2 ^ (- e) * 2 ^ (e + 1074))
        by (rewrite <- Z.pow_add_r by lia; f_equal; lia).
      rewrite Z.mul_assoc.
      rewrite <- Z.mul_lt_mono_pos_r by (apply pow2_pos; lia). tauto.
Qed.

Lemma shl_align_units m e ez :
  ez <= e ->
  Zpos (fst (shl_align m e ez)) = Zpos m * 2 ^ (e - ez).
Proof.
  intros H. unfold shl_align.
  destruct (ez - e) as [|k|k] eqn:Hk; simpl; try lia.
  - replace (e - ez) with 0 by lia. lia.
  - rewrite iter_xO. f_equal. f_equal. lia.
Qed.

Lemma binary_normalize_units a e :
  -1074 <= e -> 0 <= a ->
  rounds_to (binary_normalize 53 1024 a e false) (a * 2 ^ (e + 1074)).
Proof.
  intros He Ha. destruct a as [|p|p]; try lia.
  - left. simpl. repeat split.
  - unfold binary_normalize.
    destruct (binary_round_units false p e He)
      as [(Hlt & m' & e' & -> & He' & Hm' & Hv)|(Hge & ->)].
    + left. split; [exact Hlt|]. split; [simpl; lia|]. simpl. exact Hv.
    + right. split; [exact Hge|reflexivity].
Qed.

(** Subtraction rounds the exact difference. *)
Lemma fsub_units x y :
  fin_repr x -> fin_repr y -> units y <= units x ->
  rounds_to (fsub x y) (units x - units y).
Proof.
  intros Hx Hy Hle.
  destruct x as [sx| |  |sx mx ex]; try easy;
    destruct y as [sy| |  |sy my ey]; try easy.
  - left. simpl. repeat split.
    + destruct sx, sy; exact I.
    + destruct sx, sy; reflexivity.
  - (* 0 - y *)
    pose proof (units_bound _ Hy) as Hb.
    destruct Hy as [He Hm].
    assert (0 < 2 ^ (ey + 1074)) as HK by (apply pow2_pos; lia).
    destruct sy; simpl in Hle, Hb; [|lia].
    unfold rounds_to.
    change (fsub (S754_zero sx) (S754_finite true my ey))
      with (S754_finite false my ey).
    replace (units (S754_zero sx) - units (S754_finite true my ey))
      with (Zpos my * 2 ^ (ey + 1074)) by (simpl; lia).
    rewrite round_units_exact by lia.
    left. split; [lia|]. split; [simpl; lia | reflexivity].
  - (* x - 0 *)
    pose proof (units_bound _ Hx) as Hb.
    destruct Hx as [He Hm].
    assert (0 < 2 ^ (ex + 1074)) as HK by (apply pow2_pos; lia).
    destruct sx; simpl in Hle, Hb; [lia|].
    unfold rounds_to.
    change (fsub (S754_finite false mx ex) (S754_zero sy))
      with (S754_finite false mx ex).
    replace (units (S754_finite false mx ex) - units (S754_zero sy))
      with (Zpos mx * 2 ^ (ex + 1074)) by (simpl; lia).
    rewrite round_units_exact by lia.
    left. split; [lia|]. split; [simpl; lia | reflexivity].
  - destruct Hx as [Hex Hmx], Hy as [Hey Hmy].
    unfold fsub, SFsub, prec, emax. cbv zeta.
    set (ez := Z.min ex ey).
    rewrite !shl_align_units by (subst ez; lia).
    set (a := cond_Zopp sx (Z.pos mx * 2 ^ (ex - ez))
              - cond_Zopp sy (Z.pos my * 2 ^ (ey - ez))).
    assert (0 < 2 ^ (ez + 1074)) as HK by (apply pow2_pos; subst ez; lia).
    assert (units (S754_finite sx mx ex) - units (S754_finite sy my ey)
            = a * 2 ^ (ez + 1074)) as Hu.
    { subst a. simpl. rewrite Z.mul_sub_distr_r, <- !cond_Zopp_mul.
      rewrite <- !Z.mul_assoc, <- !Z.pow_add_r by (subst ez; lia).
      f_equal; f_equal; f_equal; f_equal; lia. }
    rewrite Hu. apply binary_normalize_units; [subst ez; lia|].
    destruct (Z.lt_ge_cases a 0) as [Hneg|Hnn]; [exfalso|exact Hnn].
    assert (a * 2 ^ (ez + 1074) < 0) by nia. lia.
Qed.

End Rounding.

(** ** What the limiter's tests become in units *)

Module Recency.
Import Binary64 Rounding.
Local Open Scope Z_scope.



(** The test [x - y < z] of the prune step, for [y <= x]. *)
Lemma recent_units x y z :
  fin_repr x -> fin_repr y -> units y <= units x ->
  flt_int (fsub x y) z =
  (round_units (units x - units y) <? 2 ^ 2098)
  && (round_units (units x - units y) <? z * 2 ^ 1074).
Proof.
  intros Hx Hy Hle.
  destruct (fsub_units x y Hx Hy Hle) as [(Hlt & Hr & Hu)|(Hge & ->)].
  - rewrite flt_int_units, Hu by exact Hr.
    apply Z.ltb_lt in Hlt. rewrite Hlt. reflexivity.
  - apply Z.ltb_ge in Hge. rewrite Hge. reflexivity.
Qed.

(** A timestamp that is recent at some instant was recent at every earlier
    instant not before it. *)
Lemma recent_mono t n1 n2 z :
  fin_repr t -> fin_repr n1 -> fin_repr n2 ->
  units t <= units n1 -> units n1 <= units n2 ->
  flt_int (fsub n2 t) z = true -> flt_int (fsub n1 t) z = true.
Proof.
  intros Ht H1 H2 Ht1 H12.
  rewrite !recent_units by (assumption || lia).
  rewrite !Bool.andb_true_iff, !Z.ltb_lt.
  pose proof (round_units_mono (units n1 - units t) (units n2 - units t)
                ltac:(lia)).
  lia.
Qed.

(** At one instant, a timestamp not older than a recent one is recent. *)
Lemma recent_anti t0 t1 n z :
  fin_repr t0 -> fin_repr t1 -> fin_repr n ->
  units t0 <= units t1 -> units t1 <= units n ->
  flt_int (fsub n t0) z = true -> flt_int (fsub n t1) z = true.
Proof.
  intros H0 H1 Hn H01 H1n.
  rewrite !recent_units by (assumption || lia).
  rewrite !Bool.andb_true_iff, !Z.ltb_lt.
  pose proof (round_units_mono (units n - units t1) (units n - units t0)
                ltac:(lia)).
  lia.
Qed.

(** A timestamp at least [z] old in exact arithmetic is not recent, when
    [z] is a double. *)
Lemma old_not_recent x y z :
  fin_repr x -> fin_repr y -> units y <= units x ->
  z <= 2 ^ 53 ->
  z * 2 ^ 1074 <= units x - units y ->
  flt_int (fsub x y) z = false.
Proof.
  intros Hx Hy Hle Hz Hold.
  rewrite recent_units by assumption.
  apply Bool.andb_false_iff. right. apply Z.ltb_ge.
  destruct (Z.le_gt_cases z 0) as [Hz0|Hz0].
  - pose proof (round_units_nonneg (units x - units y) ltac:(lia)). nia.
  - assert (round_units (z * 2 ^ 1074) = z * 2 ^ 1074) as Hex.
    { destruct (Z.eq_dec z (2 ^ 53)) as [->|Hne].
      - rewrite <- Z.pow_add_r by lia.
        rewrite <- (Z.mul_1_l (2 ^ (53 + 1074))).
        apply round_units_exact; lia.
      - apply round_units_exact; lia. }
    rewrite <- Hex. apply round_units_mono. lia.
Qed.





End Recency.

(** * The limiter over binary64 arithmetic: one call *)

Import Binary64.

Lemma filter_filter_implied_In {A} (f g : A → bool) (l : list A) :
  (∀ x, In x l → f x = true → g x = true) →
  List.filter f (List.filter g l) = List.filter f l.
Proof.
  induction l as [|x l IH]; intros Himp; simpl; [done|].
  assert (List.filter f (List.filter g l) = List.filter f l) as IH'
    by (apply IH; intros y Hy; apply Himp; by right).
  destruct (g x) eqn:Hg; simpl.
  - by rewrite IH'.
  - destruct (f x) eqn:Hf; [|done].
    apply Himp in Hf; [congruence | by left].
Qed.

Lemma f64_prune_In period now t l :
  In t (prune period now l) ↔ In t l ∧ flt_int (fsub now t) period = true.
Proof. unfold prune. by rewrite filter_In. Qed.

Lemma f64_prune_app period now l1 l2 :
  prune period now (l1 ++ l2) = prune period now l1 ++ prune period now l2.
Proof. apply List.filter_app. Qed.

Lemma f64_prune_length_le period now l :
  (length (prune period now l) <= length l)%nat.
Proof. apply List.filter_length_le. Qed.

Lemma f64_prune_Forall (P : spec_float → Prop) period now l :
  Forall P l → Forall P (prune period now l).
Proof.
  induction 1 as [|t l Ht _ IH]; simpl; [done|].
  destruct (flt_int (fsub now t) period); [by constructor | done].
Qed.

Lemma f64_prune_sorted (R : relation spec_float) period now l :
  StronglySorted R l → StronglySorted R (prune period now l).
Proof.
  induction 1 as [|t l _ IH Ht]; simpl; [constructor|].
  destruct (flt_int (fsub now t) period); [|done].
  constructor; [done | by apply f64_prune_Forall].
Qed.

Lemma f64_window_insert (usage : gmap string (list spec_float)) k l :
  window (<[k := l]> usage) k = l.
Proof. unfold window. by rewrite lookup_insert_eq. Qed.

Lemma f64_window_empty k : window ∅ k = [].
Proof. unfold window. by rewrite lookup_empty. Qed.

(** [period - (now - oldest)] can only fail in the conversion of
    [period]. *)
Lemma wait_of_raises period now oldest :
  wait_of period now oldest = None → float_of_int period = None.
Proof. unfold wait_of. by destruct (float_of_int period). Qed.

Section F64Wrapper.
Context {Response Error : Type}.
Variable sha256_hexdigest : string → string.
Variables max_calls period : Z.
Variable func : Request → Awaited Response Error.

(** What the reject path raises: the 429 whose detail carries the formatted
    wait, or the [OverflowError] of the conversion of [period]. *)
Local Abbreviation refusal now oldest :=
  (match wait_of period now oldest with
   | Some wait =>
     Raised (R:=Awaited Response Error)
       (HTTPException 429 (retry_detail wait))
   | None => Raised OverflowError
   end).

Lemma f64_wrapper_admit usage request now k :
  key_of sha256_hexdigest request = Some k →
  (Z.of_nat (length (prune period now (window usage k))) < max_calls)%Z →
  wrapper sha256_hexdigest max_calls period func usage request now =
    (Served (func request),
     <[k := prune period now (window usage k) ++ [now]]> usage).
Proof.
  intros (peer & Hc & ->)%key_of_Some Hlt.
  apply Z.ltb_lt in Hlt. unfold window in *.
  unfold wrapper. rewrite Hc. simpl.
  destruct (usage !! sha256_hexdigest (host peer)) as [ts|] eqn:Hk.
  - rewrite Hk. simpl in Hlt. rewrite Hlt.
    by rewrite insert_insert_eq.
  - rewrite lookup_insert_eq. simpl in *. rewrite Hlt.
    by rewrite !insert_insert_eq.
Qed.

Lemma f64_wrapper_refuse usage request now k oldest rest :
  key_of sha256_hexdigest request = Some k →
  (max_calls <= Z.of_nat (length (prune period now (window usage k))))%Z →
  prune period now (window usage k) = oldest :: rest →
  wrapper sha256_hexdigest max_calls period func usage request now =
    (refusal now oldest, <[k := oldest :: rest]> usage).
Proof.
  intros (peer & Hc & ->)%key_of_Some Hge Hw.
  apply Z.ltb_ge in Hge. unfold window in *.
  unfold wrapper. rewrite Hc. simpl.
  destruct (usage !! sha256_hexdigest (host peer)) as [ts|] eqn:Hk.
  - rewrite Hk. simpl in Hge, Hw. rewrite Hge, Hw.
    by destruct (wait_of period now oldest).
  - simpl in Hw. discriminate.
Qed.

Lemma f64_wrapper_index_error usage request now k :
  key_of sha256_hexdigest request = Some k →
  (max_calls <= 0)%Z →
  prune period now (window usage k) = [] →
  wrapper sha256_hexdigest max_calls period func usage request now =
    (Raised IndexError, <[k := []]> usage).
Proof.
  intros (peer & Hc & ->)%key_of_Some Hle Hw.
  assert ((Z.of_nat 0 <? max_calls)%Z = false) as Hnlt
    by (apply Z.ltb_ge; lia).
  unfold window in *.
  unfold wrapper. rewrite Hc. simpl.
  destruct (usage !! sha256_hexdigest (host peer)) as [ts|] eqn:Hk.
  - rewrite Hk. simpl in Hw. rewrite Hw. simpl.
    by rewrite Hnlt.
  - rewrite lookup_insert_eq. simpl. rewrite Hnlt.
    by rewrite insert_insert_eq.
Qed.

Lemma f64_wrapper_no_client usage request now :
  key_of sha256_hexdigest request = None →
  wrapper sha256_hexdigest max_calls period func usage request now =
    (Raised (HTTPException 400 "Request has no client information"), usage).
Proof.
  intros Hc%key_of_None. unfold wrapper. by rewrite Hc.
Qed.

Local Abbreviation wrapper := (wrapper sha256_hexdigest max_calls period func).
Local Abbreviation key_of := (key_of sha256_hexdigest).
Local Abbreviation prune := (prune period).

Lemma refusal_not_served now oldest :
  is_served (refusal now oldest) = false.
Proof. by destruct (wait_of period now oldest). Qed.

Lemma f64_wrapper_cases usage request now k :
  key_of request = Some k →
  let w := prune now (window usage k) in
  ((Z.of_nat (length w) < max_calls)%Z ∧
   wrapper usage request now =
     (Served (func request), <[k := w ++ [now]]> usage))
  ∨ (∃ oldest rest, (max_calls <= Z.of_nat (length w))%Z ∧
     w = oldest :: rest ∧
     wrapper usage request now = (refusal now oldest, <[k := w]> usage))
  ∨ ((max_calls <= 0)%Z ∧ w = [] ∧
     wrapper usage request now = (Raised IndexError, <[k := w]> usage)).
Proof.
  intros Hk w.
  destruct (Z.lt_ge_cases (Z.of_nat (length w)) max_calls) as [Hlt|Hge].
  - left. split; [done|]. by apply f64_wrapper_admit.
  - right. destruct (prune now (window usage k)) as [|oldest rest] eqn:Hw;
      subst w.
    + right. simpl in Hge. split_and!; [lia | done |].
      apply f64_wrapper_index_error; [done | lia | done].
    + left. exists oldest, rest. split_and!; [done | done |].
      apply f64_wrapper_refuse; [done | by rewrite Hw | done].
Qed.

Lemma f64_wrapper_window_same usage request now k :
  key_of request = Some k →
  window (wrapper usage request now).2 k =
    prune now (window usage k)
    ++ (if is_served (wrapper usage request now).1 then [now] else []).
Proof.
  intros Hk.
  destruct (f64_wrapper_cases usage request now k Hk)
    as [[_ ->]|[(o & r & _ & Hw & ->)|(_ & Hw & ->)]];
    unfold window at 1; simpl; rewrite lookup_insert_eq; simpl;
    rewrite ?refusal_not_served; by rewrite ?app_nil_r.
Qed.

Lemma f64_wrapper_lookup_other usage request now k :
  key_of request ≠ Some k →
  (wrapper usage request now).2 !! k = usage !! k.
Proof.
  intros Hk.
  destruct (key_of request) as [k'|] eqn:Hk'.
  - assert (k' ≠ k) by congruence.
    destruct (f64_wrapper_cases usage request now k' Hk')
      as [[_ ->]|[(o & r & _ & Hw & ->)|(_ & Hw & ->)]];
      simpl; by rewrite lookup_insert_ne.
  - by rewrite f64_wrapper_no_client.
Qed.

Lemma f64_wrapper_window_other usage request now k :
  key_of request ≠ Some k →
  window (wrapper usage request now).2 k = window usage k.
Proof.
  intros Hk. unfold window. by rewrite f64_wrapper_lookup_other.
Qed.

Lemma f64_wrapper_served usage request now k :
  key_of request = Some k →
  is_served (wrapper usage request now).1 =
    (Z.of_nat (length (prune now (window usage k))) <? max_calls)%Z.
Proof.
  intros Hk.
  destruct (f64_wrapper_cases usage request now k Hk)
    as [[Hlt ->]|[(o & r & Hge & Hw & ->)|(Hle & Hw & ->)]]; simpl;
    rewrite ?refusal_not_served;
    symmetry; [by apply Z.ltb_lt | by apply Z.ltb_ge |].
  rewrite Hw. simpl. apply Z.ltb_ge. lia.
Qed.

End F64Wrapper.

(** * The limiter over binary64 arithmetic: executions *)

Section F64Executions.
Context {Response Error : Type}.
Variable sha256_hexdigest : string → string.
Variables max_calls period : Z.
Variable func : Request → Awaited Response Error.

Lemma f64_run_snoc calls c :
  run sha256_hexdigest max_calls period func (calls ++ [c]) =
  step sha256_hexdigest max_calls period func
    (run sha256_hexdigest max_calls period func calls) c.
Proof. unfold run. by rewrite fold_left_app. Qed.

Lemma f64_step_usage st c :
  (step sha256_hexdigest max_calls period func st c).1 =
  (wrapper sha256_hexdigest max_calls period func st.1 c.1 c.2).2.
Proof.
  unfold step.
  by destruct (wrapper sha256_hexdigest max_calls period func st.1 c.1 c.2).
Qed.

Lemma f64_step_history st c :
  (step sha256_hexdigest max_calls period func st c).2 =
  st.2
  ++ [(c, (wrapper sha256_hexdigest max_calls period func st.1 c.1 c.2).1)].
Proof.
  unfold step.
  by destruct (wrapper sha256_hexdigest max_calls period func st.1 c.1 c.2).
Qed.

Lemma f64_admitted_times_snoc k
    (h : list (Call * Outcome (Awaited Response Error))) e :
  admitted_times sha256_hexdigest k (h ++ [e]) =
  admitted_times sha256_hexdigest k h
  ++ (if admitted sha256_hexdigest k e then [e.1.2] else []).
Proof.
  unfold admitted_times. rewrite List.filter_app, map_app. simpl.
  by destruct (admitted sha256_hexdigest k e).
Qed.

Lemma f64_clock_monotone_snoc calls c :
  clock_monotone (calls ++ [c]) →
  clock_monotone calls ∧ Forall (λ c', (units c'.2 <= units c.2)%Z) calls.
Proof.
  unfold clock_monotone. rewrite map_app. simpl. intros Hs. split.
  - by apply StronglySorted_app_1_l in Hs.
  - apply Forall_forall. intros c' Hc'.
    apply (StronglySorted_app_1_elem_of _ _ _ _ _ Hs).
    + apply list_elem_of_fmap. by exists c'.
    + by apply list_elem_of_singleton.
Qed.

Lemma f64_admitted_key k (c : Call)
    (out : Outcome (Awaited Response Error)) :
  key_of sha256_hexdigest c.1 = Some k →
  admitted sha256_hexdigest k (c, out) = is_served out.
Proof.
  intros Hk. unfold admitted. simpl. rewrite Hk.
  by rewrite bool_decide_eq_true_2.
Qed.

Lemma f64_admitted_other_key k (c : Call)
    (out : Outcome (Awaited Response Error)) :
  key_of sha256_hexdigest c.1 ≠ Some k →
  admitted sha256_hexdigest k (c, out) = false.
Proof.
  intros Hk. unfold admitted. simpl.
  destruct (key_of sha256_hexdigest c.1) as [k'|]; [|done].
  rewrite bool_decide_eq_false_2; [done | congruence].
Qed.

Local Abbreviation wrapper := (wrapper sha256_hexdigest max_calls period func).
Local Abbreviation key_of := (key_of sha256_hexdigest).
Local Abbreviation prune := (prune period).
Local Abbreviation run := (run sha256_hexdigest max_calls period func).
Local Abbreviation admitted_times :=
  (admitted_times (Response:=Response) (Error:=Error) sha256_hexdigest).

(** A Window never exceeds a non-negative quota. *)
Lemma f64_run_window_length calls k :
  (0 <= max_calls)%Z →
  (Z.of_nat (length (window (run calls).1 k)) <= max_calls)%Z.
Proof.
  intros Hpos.
  induction calls as [|[request now] calls IH] using rev_ind.
  - rewrite f64_window_empty. simpl. lia.
  - rewrite f64_run_snoc, f64_step_usage. simpl.
    destruct (decide (key_of request = Some k)) as [Hk|Hk].
    + rewrite f64_wrapper_window_same,
        (f64_wrapper_served _ _ _ _ _ _ _ k) by done.
      pose proof (f64_prune_length_le period now (window (run calls).1 k)).
      destruct (Z.ltb_spec
        (Z.of_nat (length (prune now (window (run calls).1 k)))) max_calls);
        rewrite length_app; simpl; lia.
    + by rewrite f64_wrapper_window_other.
Qed.

(** Every timestamp of a Window is the reading of an earlier call. *)
Lemma f64_run_window_Forall (P : spec_float → Prop) calls k t :
  Forall (λ c, P c.2) calls →
  In t (window (run calls).1 k) → P t.
Proof.
  revert t.
  induction calls as [|[request now] calls IH] using rev_ind; intros t Hb.
  - rewrite f64_window_empty. intros [].
  - apply Forall_app in Hb as [Hb Hc].
    rewrite Forall_singleton in Hc. simpl in Hc.
    rewrite f64_run_snoc, f64_step_usage. simpl.
    destruct (decide (key_of request = Some k)) as [Hk|Hk].
    + rewrite f64_wrapper_window_same by done.
      rewrite in_app_iff, f64_prune_In.
      intros [[Hin _]|Hin]; [by apply IH|].
      destruct (is_served _); simpl in Hin; [|done].
      by destruct Hin as [<-|[]].
    + rewrite f64_wrapper_window_other by done. by apply IH.
Qed.

(** A later prune subsumes an earlier one, on timestamps that are not in
    the future. *)
Lemma f64_prune_prune_le now T l :
  is_reading now = true → is_reading T = true →
  (units now <= units T)%Z →
  Forall (λ t, is_reading t = true ∧ (units t <= units now)%Z) l →
  prune T (prune now l) = prune T l.
Proof.
  intros Hn HT Hle Hl. apply filter_filter_implied_In.
  intros t Ht. rewrite Forall_forall in Hl.
  destruct (Hl t) as [Hrt Htn]; [by apply list_elem_of_In|].
  apply Recency.recent_mono;
    auto using Rounding.is_reading_fin_repr.
Qed.

(** Whatever a later prune keeps of a Window is what it keeps of the whole
    list of admitted calls of the key. *)
Lemma f64_run_window_admitted calls T k :
  readings calls →
  clock_monotone calls →
  is_reading T = true →
  Forall (λ c, (units c.2 <= units T)%Z) calls →
  prune T (window (run calls).1 k) = prune T (admitted_times k (run calls).2).
Proof.
  revert T.
  induction calls as [|[request now] calls IH] using rev_ind;
    intros T Hr Hm HT Hb.
  - by rewrite f64_window_empty.
  - apply f64_clock_monotone_snoc in Hm as [Hm Hle].
    apply Forall_app in Hr as [Hr Hrn].
    rewrite Forall_singleton in Hrn. simpl in Hrn.
    apply Forall_app in Hb as [Hb Hc].
    rewrite Forall_singleton in Hc. simpl in Hc.
    rewrite f64_run_snoc, f64_step_usage, f64_step_history,
      f64_admitted_times_snoc. simpl.
    destruct (decide (key_of request = Some k)) as [Hk|Hk].
    + rewrite f64_wrapper_window_same, f64_admitted_key by done.
      rewrite !f64_prune_app, f64_prune_prune_le; [by rewrite IH|done..|].
      apply Forall_forall. intros t Ht%list_elem_of_In.
      apply (f64_run_window_Forall
               (λ t, is_reading t = true ∧ (units t <= units now)%Z)
               calls k); [|done].
      apply Forall_forall. intros c Hc'.
      rewrite Forall_forall in Hr, Hle. split; [by apply Hr | by apply Hle].
    + rewrite f64_wrapper_window_other, f64_admitted_other_key, app_nil_r
        by done.
      by apply IH.
Qed.

(** The timestamps of a Window are readings of earlier calls, none later
    than the clock. *)
Lemma f64_run_window_readings calls now k :
  readings calls →
  Forall (λ c, (units c.2 <= units now)%Z) calls →
  Forall (λ t, is_reading t = true ∧ (units t <= units now)%Z)
    (window (run calls).1 k).
Proof.
  intros Hr Hle. apply Forall_forall. intros t Ht%list_elem_of_In.
  apply (f64_run_window_Forall
           (λ t, is_reading t = true ∧ (units t <= units now)%Z)
           calls k); [|done].
  apply Forall_forall. intros c Hc. unfold readings in Hr.
  rewrite Forall_forall in Hr, Hle. split; [by apply Hr | by apply Hle].
Qed.

(** Under a clock that never goes back every Window is in non-decreasing
    order. *)
Lemma f64_run_window_sorted calls k :
  clock_monotone calls →
  StronglySorted (λ x y, (units x <= units y)%Z) (window (run calls).1 k).
Proof.
  induction calls as [|[request now] calls IH] using rev_ind; intros Hm.
  - rewrite f64_window_empty. constructor.
  - apply f64_clock_monotone_snoc in Hm as [Hm Hle].
    rewrite f64_run_snoc, f64_step_usage. simpl.
    destruct (decide (key_of request = Some k)) as [Hk|Hk].
    + rewrite f64_wrapper_window_same by done.
      apply StronglySorted_app_2.
      * intros t u [Ht _]%list_elem_of_In%f64_prune_In Hu.
        apply (f64_run_window_Forall (λ t, (units t <= units now)%Z)
                 calls k) in Ht; [|done].
        destruct (is_served _); [|by apply elem_of_nil in Hu].
        by apply list_elem_of_singleton in Hu as ->.
      * apply f64_prune_sorted. by apply IH.
      * destruct (is_served _); repeat constructor.
    + rewrite f64_wrapper_window_other by done. by apply IH.
Qed.

Lemma f64_run_window_nonpositive calls k :
  (max_calls <= 0)%Z → window (run calls).1 k = [].
Proof.
  intros Hle.
  induction calls as [|[request now] calls IH] using rev_ind.
  - apply f64_window_empty.
  - rewrite f64_run_snoc, f64_step_usage. simpl.
    destruct (decide (key_of request = Some k)) as [Hk|Hk].
    + rewrite f64_wrapper_window_same,
        (f64_wrapper_served _ _ _ _ _ _ _ k), IH by done.
      simpl.
      by replace (Z.of_nat 0 <? max_calls)%Z with false
        by (symmetry; apply Z.ltb_ge; lia).
    + by rewrite f64_wrapper_window_other.
Qed.

(** A pruned Window of an execution that is not empty is within the
    quota. *)
Lemma f64_run_pruned_nonempty calls now k oldest rest :
  prune now (window (run calls).1 k) = oldest :: rest →
  (Z.of_nat (length (oldest :: rest)) <= max_calls)%Z.
Proof.
  intros Hp.
  destruct (Z.le_gt_cases max_calls 0) as [Hle|Hpos].
  - by rewrite f64_run_window_nonpositive in Hp.
  - pose proof (f64_run_window_length calls k ltac:(lia)) as Hlen.
    pose proof (f64_prune_length_le period now (window (run calls).1 k))
      as Hl.
    rewrite Hp in Hl. lia.
Qed.

(** C1, as the code has it. Along any execution of a freshly decorated
    endpoint with a positive quota and binary64 clock readings that never
    decrease, for a call at [now] of the client of key [k]: once the call
    is done, the admitted calls of the key, this one included, that are
    within [period] of [now] as the code measures it (the rounded
    difference [now - t] is less than [period]) number at most
    [max_calls]; the call is let through when the earlier ones are fewer
    than [max_calls], and refused when they are [max_calls]: answered 429,
    or ended by the [OverflowError] of [float(period)] when [period] is
    out of range. *)
Theorem f64_sliding_window_limit calls request now k :
  (0 < max_calls)%Z →
  readings (calls ++ [(request, now)]) →
  clock_monotone (calls ++ [(request, now)]) →
  key_of request = Some k →
  (Z.of_nat (length (prune now
     (admitted_times k (run (calls ++ [(request, now)])).2)))
     <= max_calls)%Z
  ∧ ((Z.of_nat (length (prune now (admitted_times k (run calls).2)))
        < max_calls)%Z →
     (wrapper (run calls).1 request now).1 = Served (func request))
  ∧ ((max_calls
        <= Z.of_nat (length (prune now (admitted_times k (run calls).2))))%Z →
     (∃ wait, (wrapper (run calls).1 request now).1 =
              Raised (HTTPException 429 (retry_detail wait)))
     ∨ ((wrapper (run calls).1 request now).1 = Raised OverflowError
        ∧ float_of_int period = None)).
Proof.
  intros Hpos Hr Hm Hk.
  apply f64_clock_monotone_snoc in Hm as [Hm Hle].
  apply Forall_app in Hr as [Hr Hrn].
  rewrite Forall_singleton in Hrn. simpl in Hrn.
  rewrite f64_run_snoc, f64_step_history, f64_admitted_times_snoc,
    f64_admitted_key, f64_prune_app, length_app by done.
  cbn [fst snd].
  rewrite (f64_wrapper_served _ _ _ _ _ _ _ k) by done.
  rewrite <- (f64_run_window_admitted calls now k) by done.
  pose proof (f64_prune_length_le period now (window (run calls).1 k)) as Hl.
  pose proof (f64_run_window_length calls k ltac:(lia)) as Hq.
  split_and!.
  - destruct (Z.ltb_spec
      (Z.of_nat (length (prune now (window (run calls).1 k)))) max_calls)
      as [Hlt|Hge]; [|change (length (prune now [])) with 0%nat; lia].
    pose proof (f64_prune_length_le period now [now]) as H1.
    change (length [now]) with 1%nat in H1. lia.
  - intros Hlt. by rewrite (f64_wrapper_admit _ _ _ _ _ _ _ k).
  - intros Hge.
    destruct (f64_wrapper_cases sha256_hexdigest max_calls period func
                (run calls).1 request now k Hk)
      as [[Hlt _]|[(o & r & _ & _ & ->)|(Hle0 & _ & _)]]; [lia | | lia].
    simpl. destruct (wait_of period now o) as [w|] eqn:Hw.
    + left. by exists w.
    + right. by apply wait_of_raises in Hw.
Qed.


End F64Executions.

(** C1 fails on binary64 readings. With [max_calls = 1] and [period = 10],
    calls of one client at the doubles 0.1 and 10.1 are both served: the
    difference [10.1 - 0.1] rounds to 10.0, so the first timestamp is
    pruned, although both readings lie in the window [[0.1, 0.1 + 10)]:
    two admitted calls in a window of length [period], and the second call
    within it is not rejected. *)
Lemma f64_two_served_within_period :
  readings [(from_host "a", d_0_1); (from_host "a", d_10_1)]
  ∧ clock_monotone [(from_host "a", d_0_1); (from_host "a", d_10_1)]
  ∧ run hexdigest_stub 1 10 read_root
      [(from_host "a", d_0_1); (from_host "a", d_10_1)] =
    ({[ hexdigest_stub "a" := [d_10_1] ]},
     [((from_host "a", d_0_1),
       Served (Value {[ "message" := "Hello, World!" ]}));
      ((from_host "a", d_10_1),
       Served (Value {[ "message" := "Hello, World!" ]}))])
  ∧ within_period 10 d_0_1 d_0_1 = true
  ∧ within_period 10 d_0_1 d_10_1 = true
  ∧ ¬ (Z.of_nat (length (List.filter (within_period 10 d_0_1)
         (admitted_times hexdigest_stub "a"
            (run hexdigest_stub 1 10 read_root
               [(from_host "a", d_0_1); (from_host "a", d_10_1)]).2)))
       <= 1)%Z.
Proof.
  split_and!.
  - repeat constructor.
  - unfold clock_monotone. simpl.
    repeat (constructor; try (vm_compute; discriminate)).
  - by vm_compute.
  - by vm_compute.
  - by vm_compute.
  - vm_compute. intros H. by apply H.
Qed.


(** * Further properties over binary64 arithmetic *)

Lemma f64_window_singleton k (l : list spec_float) :
  window {[ k := l ]} k = l.
Proof. unfold window. by rewrite lookup_singleton_eq. Qed.

Lemma f64_prune_all period now l :
  Forall (λ t, flt_int (fsub now t) period = true) l →
  prune period now l = l.
Proof.
  induction 1 as [|t l Ht _ IH]; simpl; [done|].
  by rewrite Ht, IH.
Qed.

Section F64More.
Context {Response Error : Type}.
Variable sha256_hexdigest : string → string.
Variables max_calls period : Z.
Variable func : Request → Awaited Response Error.

Lemma f64_step_admit st request now k w :
  key_of sha256_hexdigest request = Some k →
  prune period now (window st.1 k) = w →
  (Z.of_nat (length w) < max_calls)%Z →
  step sha256_hexdigest max_calls period func st (request, now) =
    (<[k := w ++ [now]]> st.1,
     st.2 ++ [((request, now), Served (func request))]).
Proof.
  intros Hk <- Hlt. unfold step. simpl.
  by rewrite (f64_wrapper_admit _ _ _ _ _ _ _ k).
Qed.

Lemma f64_step_refuse st request now k oldest rest :
  key_of sha256_hexdigest request = Some k →
  prune period now (window st.1 k) = oldest :: rest →
  (max_calls <= Z.of_nat (length (oldest :: rest)))%Z →
  step sha256_hexdigest max_calls period func st (request, now) =
    (<[k := oldest :: rest]> st.1,
     st.2 ++ [((request, now),
               match wait_of period now oldest with
               | Some wait =>
                 Raised (HTTPException 429 (retry_detail wait))
               | None => Raised OverflowError
               end)]).
Proof.
  intros Hk Hw Hge. unfold step. simpl.
  rewrite (f64_wrapper_refuse _ _ _ _ _ _ _ k oldest rest); try done.
  by rewrite Hw.
Qed.

Local Abbreviation wrapper := (wrapper sha256_hexdigest max_calls period func).
Local Abbreviation key_of := (key_of sha256_hexdigest).
Local Abbreviation prune := (prune period).
Local Abbreviation run := (run sha256_hexdigest max_calls period func).

(** The ways a call can end, from any usage state and for any float [now]:
    served with what the endpoint yields, exactly when the pruned Window of
    the client is shorter than [max_calls]; 400 exactly when the request
    has no client; 429 with the formatted wait computed from the first
    retained timestamp; [OverflowError], only when [float(period)] is out
    of range; [IndexError], only when [max_calls <= 0]. The lookup
    [usage[unique_id]] never raises [KeyError]. *)
Theorem f64_wrapper_outcome_kinds usage request now :
  match (wrapper usage request now).1 with
  | Served r =>
      r = func request
      ∧ ∃ k, key_of request = Some k
             ∧ (Z.of_nat (length (prune now (window usage k))) < max_calls)%Z
  | Raised (HTTPException code detail) =>
      (code = 400%Z ∧ client request = None
       ∧ detail = "Request has no client information")
      ∨ (code = 429%Z
         ∧ ∃ k oldest rest wait,
             key_of request = Some k
             ∧ prune now (window usage k) = oldest :: rest
             ∧ (max_calls <= Z.of_nat (length (oldest :: rest)))%Z
             ∧ wait_of period now oldest = Some wait
             ∧ detail = retry_detail wait)
  | Raised OverflowError =>
      float_of_int period = None
      ∧ ∃ k, key_of request = Some k
             ∧ prune now (window usage k) ≠ []
             ∧ (max_calls
                  <= Z.of_nat (length (prune now (window usage k))))%Z
  | Raised IndexError =>
      (max_calls <= 0)%Z
      ∧ ∃ k, key_of request = Some k ∧ prune now (window usage k) = []
  | Raised KeyError => False
  end.
Proof.
  destruct (key_of request) as [k|] eqn:Hk.
  - destruct (f64_wrapper_cases sha256_hexdigest max_calls period func
                usage request now k Hk)
      as [[Hlt ->]|[(o & r & Hge & Ho & ->)|(Hle & Ho & ->)]]; simpl.
    + split; [done|]. by exists k.
    + destruct (wait_of period now o) as [w|] eqn:Hw.
      * right. split; [done|]. exists k, o, r, w. by rewrite Ho in *.
      * apply wait_of_raises in Hw.
        split; [done|]. exists k. by rewrite Ho in *.
    + split; [done|]. by exists k.
  - rewrite f64_wrapper_no_client by done. simpl.
    left. split_and!; [done | by apply key_of_None in Hk | done].
Qed.

(** With a positive quota and [period <= 2^53], a call arriving when every
    timestamp of the client's Window is at least [period] old in exact
    arithmetic (in particular the first call of a client) is served, and
    the Window restarts as [[now]]. *)
Theorem f64_idle_window_resets usage request now k :
  (0 < max_calls)%Z →
  (period <= 2 ^ 53)%Z →
  key_of request = Some k →
  is_reading now = true →
  (∀ t, In t (window usage k) →
        is_reading t = true ∧ (units t <= units now)%Z
        ∧ (period * 2 ^ 1074 <= units now - units t)%Z) →
  wrapper usage request now =
    (Served (func request), <[k := [now]]> usage).
Proof.
  intros Hpos Hp Hk Hn Hold.
  assert (prune now (window usage k) = []) as Hempty.
  { destruct (prune now (window usage k)) as [|t l] eqn:Hpr; [done|].
    assert (In t (prune now (window usage k))) as Hin
      by (rewrite Hpr; by left).
    apply f64_prune_In in Hin as [Hin Hrecent].
    destruct (Hold t Hin) as (Ht & Hle & Hage).
    assert (flt_int (fsub now t) period = false) as Hgone
      by (apply Recency.old_not_recent;
          auto using Rounding.is_reading_fin_repr).
    congruence. }
  rewrite (f64_wrapper_admit _ _ _ _ _ _ _ k)
    by (rewrite ?Hempty; simpl; lia || done).
  by rewrite Hempty.
Qed.

(** From any usage state and for any float [now]: a 429 is raised only on
    a pruned Window that is not empty and holds at least [max_calls]
    timestamps; its detail is the formatted value of
    [float(period) - (now - timestamps[0])], each subtraction rounded to
    the nearest double, and the entry of the client is left as the pruned
    Window. *)
Theorem f64_reject_wait_formula usage request now detail :
  (wrapper usage request now).1 = Raised (HTTPException 429 detail) →
  ∃ k oldest rest p,
    key_of request = Some k
    ∧ prune now (window usage k) = oldest :: rest
    ∧ (max_calls <= Z.of_nat (length (oldest :: rest)))%Z
    ∧ float_of_int period = Some p
    ∧ detail = retry_detail (fsub p (fsub now oldest))
    ∧ (wrapper usage request now).2 = <[k := oldest :: rest]> usage.
Proof.
  intros Hout.
  destruct (key_of request) as [k|] eqn:Hk;
    [|rewrite f64_wrapper_no_client in Hout by done; discriminate].
  destruct (f64_wrapper_cases sha256_hexdigest max_calls period func
              usage request now k Hk)
    as [[_ Hw]|[(o & r & Hge & Ho & Hw)|(_ & _ & Hw)]];
    rewrite Hw in Hout |- *; simpl in Hout |- *; try discriminate.
  unfold wait_of in Hout.
  destruct (float_of_int period) as [p|]; [|discriminate].
  injection Hout as <-. exists k, o, r, p. by rewrite Ho in *.
Qed.

(** When the endpoint raises, the call has still been counted: the
    timestamp is appended before [func] is awaited, and the exception
    passes through the wrapper. *)
Theorem f64_endpoint_failure_counts usage request now k e :
  key_of request = Some k →
  (Z.of_nat (length (prune now (window usage k))) < max_calls)%Z →
  func request = Failure e →
  wrapper usage request now =
    (Served (Failure e), <[k := prune now (window usage k) ++ [now]]> usage).
Proof.
  intros Hk Hlt He.
  by rewrite (f64_wrapper_admit _ _ _ _ _ _ _ k), He.
Qed.

(** After a call answered 429 in an execution with binary64 readings that
    never decrease, a further call of the same client at [now'], while the
    oldest retained timestamp is still within [period] of [now'] as the
    code measures it, is answered 429 again, with the wait computed from
    the same timestamp, and usage is left unchanged. *)
Theorem f64_retry_while_recent_refused
    calls request now detail request' now' k oldest rest :
  readings (calls ++ [(request, now); (request', now')]) →
  clock_monotone (calls ++ [(request, now); (request', now')]) →
  key_of request = Some k →
  key_of request' = Some k →
  (wrapper (run calls).1 request now).1 =
    Raised (HTTPException 429 detail) →
  prune now (window (run calls).1 k) = oldest :: rest →
  flt_int (fsub now' oldest) period = true →
  ∃ p,
    float_of_int period = Some p
    ∧ wrapper (wrapper (run calls).1 request now).2 request' now' =
        (Raised (HTTPException 429
                   (retry_detail (fsub p (fsub now' oldest)))),
         (wrapper (run calls).1 request now).2).
Proof.
  intros Hr Hm Hk Hk' Hout Ho Hrecent.
  change (calls ++ [(request, now); (request', now')])
    with (calls ++ [(request, now)] ++ [(request', now')]) in Hr, Hm.
  rewrite app_assoc in Hr, Hm.
  apply (f64_clock_monotone_snoc (calls ++ [(request, now)])) in Hm
    as [Hm Hle'].
  apply Forall_app in Hle' as [Hle' Hnn'].
  rewrite Forall_singleton in Hnn'. simpl in Hnn'.
  pose proof Hm as Hm0.
  apply f64_clock_monotone_snoc in Hm0 as [Hm0 Hle].
  apply Forall_app in Hr as [Hr Hrn'].
  rewrite Forall_singleton in Hrn'. simpl in Hrn'.
  apply Forall_app in Hr as [Hr Hrn].
  rewrite Forall_singleton in Hrn. simpl in Hrn.
  pose proof (f64_prune_sorted _ period now _
                (f64_run_window_sorted sha256_hexdigest max_calls period
                   func calls k Hm0)) as Hs.
  pose proof (f64_prune_Forall _ period now _
                (f64_run_window_readings sha256_hexdigest max_calls period
                   func calls now k Hr Hle)) as Hw0.
  rewrite Ho in Hs, Hw0.
  apply StronglySorted_cons in Hs as [Hmin _].
  destruct (f64_wrapper_cases sha256_hexdigest max_calls period func
              (run calls).1 request now k Hk)
    as [[_ Hw]|[(o & r & Hge & Ho' & Hw)|(_ & _ & Hw)]];
    rewrite Hw in Hout |- *; simpl in Hout |- *; try discriminate.
  rewrite Ho in Ho', Hge |- *. injection Ho' as <- <-.
  unfold wait_of in Hout.
  destruct (float_of_int period) as [p|] eqn:Hp; [|discriminate].
  exists p. split; [done|].
  assert (prune now' (oldest :: rest) = oldest :: rest) as Hkeep.
  { apply f64_prune_all.
    apply Forall_cons in Hw0 as [[Hro Hon] Hw0].
    constructor; [done|].
    rewrite Forall_forall in Hmin, Hw0 |- *. intros t Ht.
    destruct (Hw0 t Ht) as [Hrt Htn].
    apply (Recency.recent_anti oldest t now');
      auto using Rounding.is_reading_fin_repr; lia. }
  rewrite (f64_wrapper_refuse _ _ _ _ _ _ _ k oldest rest);
    rewrite ?f64_window_insert, ?Hkeep; try done.
  unfold wait_of. by rewrite Hp, insert_insert_eq.
Qed.

(** After a call answered 429, once the timestamp the wait was computed
    from is no longer within [period] of the clock as the code measures
    it, the next call of the client is let through. *)
Theorem f64_retry_after_expiry_served
    calls request now detail request' now' k oldest rest :
  key_of request = Some k →
  key_of request' = Some k →
  (wrapper (run calls).1 request now).1 =
    Raised (HTTPException 429 detail) →
  prune now (window (run calls).1 k) = oldest :: rest →
  flt_int (fsub now' oldest) period = false →
  (wrapper (wrapper (run calls).1 request now).2 request' now').1 =
    Served (func request').
Proof.
  intros Hk Hk' Hout Ho Hgone.
  destruct (f64_wrapper_cases sha256_hexdigest max_calls period func
              (run calls).1 request now k Hk)
    as [[_ Hw]|[(o & r & Hge & Ho' & Hw)|(_ & _ & Hw)]];
    rewrite Hw in Hout |- *; simpl in Hout |- *; try discriminate.
  pose proof (f64_run_pruned_nonempty sha256_hexdigest max_calls period
                func calls now k oldest rest Ho) as Hquota.
  rewrite Ho.
  assert (prune now' (oldest :: rest) = prune now' rest) as Hdrop
    by (simpl; by rewrite Hgone).
  pose proof (f64_prune_length_le period now' rest) as Hl.
  rewrite (f64_wrapper_admit _ _ _ _ _ _ _ k); [done | done |].
  rewrite f64_window_insert, Hdrop. simpl in Hquota. lia.
Qed.

(** What the [i]-th call of a burst that started at [t0] gets. *)
Local Abbreviation burst_entry h t0 :=
  (λ (i : nat) (t : spec_float),
     ((from_host h, t),
      if (Z.of_nat i <? max_calls)%Z
      then Served (func (from_host h))
      else match wait_of period t t0 with
           | Some wait => Raised (HTTPException 429 (retry_detail wait))
           | None => Raised OverflowError
           end)).

Lemma f64_burst_run h t0 rest :
  (0 < max_calls)%Z →
  Forall (λ t, is_reading t = true) (t0 :: rest) →
  StronglySorted (λ x y, (units x <= units y)%Z) (t0 :: rest) →
  Forall (λ t, flt_int (fsub t t0) period = true) (t0 :: rest) →
  run (calls_of h (t0 :: rest)) =
    ({[ sha256_hexdigest h := take (Z.to_nat max_calls) (t0 :: rest) ]},
     imap (burst_entry h t0) (t0 :: rest)).
Proof.
  intros Hpos.
  set (k := sha256_hexdigest h).
  assert (key_of (from_host h) = Some k) as Hk by done.
  set (n := Z.to_nat max_calls).
  assert (Z.of_nat n = max_calls) as Hn by lia.
  induction rest as [|t rest IH] using rev_ind; intros Hv Hs Hrecent.
  - change (run (calls_of h [t0])) with
      (step sha256_hexdigest max_calls period func (∅, []) (from_host h, t0)).
    rewrite (f64_step_admit (∅, []) _ _ k [] Hk);
      [| by cbn [fst]; rewrite f64_window_empty | simpl; lia].
    cbn [fst snd app imap]. rewrite take_ge by (simpl; lia).
    by replace (Z.of_nat 0 <? max_calls)%Z with true
      by (symmetry; apply Z.ltb_lt; lia).
  - rewrite app_comm_cons in Hv, Hs, Hrecent |- *.
    set (l := t0 :: rest) in *.
    apply Forall_app in Hrecent as [Hrecent Ht].
    rewrite Forall_singleton in Ht.
    apply Forall_app in Hv as [Hv Hvt].
    rewrite Forall_singleton in Hvt.
    pose proof Hs as Hsl. apply StronglySorted_app_1_l in Hsl.
    assert (Forall (λ t', is_reading t' = true
                          ∧ (units t0 <= units t')%Z
                          ∧ (units t' <= units t)%Z) l) as Hmin.
    { apply Forall_forall. intros t' Ht'.
      rewrite Forall_forall in Hv. split; [by apply Hv|]. split.
      - subst l. apply elem_of_cons in Ht' as [->|Ht']; [lia|].
        apply StronglySorted_cons in Hsl as [Hmin _].
        rewrite Forall_forall in Hmin. by apply Hmin.
      - apply (StronglySorted_app_1_elem_of _ _ _ _ _ Hs); [done|].
        by apply list_elem_of_singleton. }
    assert (is_reading t0 = true) as Hv0
      by (subst l; by apply Forall_cons in Hv as [? _]).
    unfold calls_of. rewrite map_app. fold (calls_of h l). simpl map.
    rewrite f64_run_snoc, (IH Hv Hsl Hrecent). clear IH.
    assert (prune t (take n l) = take n l) as Hkeep.
    { apply f64_prune_all, Forall_take.
      eapply Forall_impl; [exact Hmin|]. simpl. intros t' (Hv' & H0 & H1).
      apply (Recency.recent_anti t0 t' t);
        auto using Rounding.is_reading_fin_repr. }
    rewrite imap_app. cbn [imap]. rewrite Nat.add_0_r.
    destruct (Z.ltb_spec (Z.of_nat (length l)) max_calls) as [Hlt|Hge].
    + rewrite (f64_step_admit (_, _) _ _ k (take n l) Hk);
        [| by cbn [fst]; rewrite f64_window_singleton
         | rewrite length_take; lia].
      cbn [fst snd]. rewrite insert_singleton_eq.
      rewrite (take_ge l), (take_ge (l ++ [t]))
        by (rewrite ?length_app; change (length [t]) with 1%nat; lia).
      done.
    + assert (take n l = t0 :: take (n - 1) rest) as Htake.
      { subst l. destruct n as [|n']; [lia|]. simpl. by rewrite Nat.sub_0_r. }
      rewrite (f64_step_refuse (_, _) _ _ k t0 (take (n - 1) rest) Hk);
        [| by cbn [fst]; rewrite f64_window_singleton, Hkeep
         | rewrite <- Htake, length_take; lia].
      cbn [fst snd]. rewrite <- Htake, insert_singleton_eq.
      by rewrite take_app_le by lia.
Qed.

(** A burst of one client on a fresh endpoint with a positive quota: when
    the binary64 readings never decrease and each is within [period] of the
    first one [t0] as the code measures it ([t - t0 < period] on the
    rounded difference), exactly the first [max_calls] calls are served,
    every later call at [t] is refused with the wait
    [period - (t - t0)], and the Window ends as the first [max_calls]
    readings. *)
Theorem f64_burst_outcomes h t0 rest :
  (0 < max_calls)%Z →
  Forall (λ t, is_reading t = true) (t0 :: rest) →
  StronglySorted (λ x y, (units x <= units y)%Z) (t0 :: rest) →
  Forall (λ t, flt_int (fsub t t0) period = true) (t0 :: rest) →
  run (calls_of h (t0 :: rest)) =
    ({[ sha256_hexdigest h := take (Z.to_nat max_calls) (t0 :: rest) ]},
     imap (burst_entry h t0) (t0 :: rest)).
Proof. apply f64_burst_run. Qed.

End F64More.

(** The example endpoint, [read_root] under
    [rate_limit(max_calls=5, period=60)], on binary64 readings: of six
    calls of one client whose readings never decrease, the last within 60
    of the first as the code measures it ([t6 - t1 < 60] on the rounded
    difference), the first five return [{"message": "Hello, World!"}] and
    the sixth is answered 429 with the formatted value of
    [60.0 - (t6 - t1)]. *)
Theorem f64_read_root_burst (sha256_hexdigest : string → string) (h : string)
    (t1 t2 t3 t4 t5 t6 : spec_float) :
  Forall (λ t, is_reading t = true) [t1; t2; t3; t4; t5; t6] →
  (units t1 <= units t2)%Z → (units t2 <= units t3)%Z →
  (units t3 <= units t4)%Z → (units t4 <= units t5)%Z →
  (units t5 <= units t6)%Z →
  flt_int (fsub t6 t1) 60 = true →
  map snd (run sha256_hexdigest 5 60 read_root
             (calls_of h [t1; t2; t3; t4; t5; t6])).2 =
  [Served (Value {[ "message" := "Hello, World!" ]});
   Served (Value {[ "message" := "Hello, World!" ]});
   Served (Value {[ "message" := "Hello, World!" ]});
   Served (Value {[ "message" := "Hello, World!" ]});
   Served (Value {[ "message" := "Hello, World!" ]});
   Raised (HTTPException 429 (retry_detail (fsub d_60 (fsub t6 t1))))].
Proof.
  intros Hv H12 H23 H34 H45 H56 Hspan.
  rewrite f64_burst_run; [done | lia | done | |].
  - apply Sorted.Sorted_StronglySorted; [intros x y z; apply Z.le_trans|].
    repeat (apply Sorted_cons; [|first [apply HdRel_nil | apply HdRel_cons]]);
      [apply Sorted_nil | done ..].
  - assert (∀ t, is_reading t = true → (units t1 <= units t)%Z →
                 (units t <= units t6)%Z →
                 flt_int (fsub t t1) 60 = true) as Hall.
    { intros t Ht Hlo Hhi.
      apply (Recency.recent_mono t1 t t6); try done;
        apply Rounding.is_reading_fin_repr; try done;
        rewrite Forall_forall in Hv; apply Hv; set_solver. }
    rewrite Forall_forall in Hv.
    repeat (apply List.Forall_cons;
            [apply Hall; [apply Hv; set_solver|lia..]|]).
    apply List.Forall_nil.
Qed.

(** * Instances of the binary64 statements *)

Lemma f64_sliding_window_limit_witness :
  (Z.of_nat (length (prune 10 d_2
     (admitted_times hexdigest_stub "a"
        (run hexdigest_stub 2 10 read_root
           ([(from_host "a", d_0); (from_host "a", d_1)]
            ++ [(from_host "a", d_2)])).2))) <= 2)%Z
  ∧ ((Z.of_nat (length (prune 10 d_2
        (admitted_times hexdigest_stub "a"
           (run hexdigest_stub 2 10 read_root
              [(from_host "a", d_0); (from_host "a", d_1)]).2))) < 2)%Z →
     (wrapper hexdigest_stub 2 10 read_root
        (run hexdigest_stub 2 10 read_root
           [(from_host "a", d_0); (from_host "a", d_1)]).1
        (from_host "a") d_2).1 = Served (read_root (from_host "a")))
  ∧ ((2 <= Z.of_nat (length (prune 10 d_2
        (admitted_times hexdigest_stub "a"
           (run hexdigest_stub 2 10 read_root
              [(from_host "a", d_0); (from_host "a", d_1)]).2))))%Z →
     (∃ wait,
        (wrapper hexdigest_stub 2 10 read_root
           (run hexdigest_stub 2 10 read_root
              [(from_host "a", d_0); (from_host "a", d_1)]).1
           (from_host "a") d_2).1 =
        Raised (HTTPException 429 (retry_detail wait)))
     ∨ ((wrapper hexdigest_stub 2 10 read_root
           (run hexdigest_stub 2 10 read_root
              [(from_host "a", d_0); (from_host "a", d_1)]).1
           (from_host "a") d_2).1 = Raised OverflowError
        ∧ float_of_int 10 = None)).
Proof.
  apply (f64_sliding_window_limit hexdigest_stub 2 10 read_root
           [(from_host "a", d_0); (from_host "a", d_1)]
           (from_host "a") d_2 "a").
  - lia.
  - repeat constructor.
  - unfold clock_monotone. simpl.
    repeat (constructor; try (vm_compute; discriminate)).
  - reflexivity.
Defined.


Lemma f64_reject_wait_formula_witness :
  ∃ k oldest rest p,
    key_of hexdigest_stub (from_host "a") = Some k
    ∧ prune 10 d_2 (window {[ "a" := [d_0; d_1] ]} k) = oldest :: rest
    ∧ (2 <= Z.of_nat (length (oldest :: rest)))%Z
    ∧ float_of_int 10 = Some p
    ∧ "Rate limit exceeded. Retry after 8.00 seconds" =
      retry_detail (fsub p (fsub d_2 oldest))
    ∧ (wrapper hexdigest_stub 2 10 read_root
         {[ "a" := [d_0; d_1] ]} (from_host "a") d_2).2 =
      <[k := oldest :: rest]> {[ "a" := [d_0; d_1] ]}.
Proof.
  apply (f64_reject_wait_formula hexdigest_stub 2 10 read_root
           {[ "a" := [d_0; d_1] ]} (from_host "a") d_2
           "Rate limit exceeded. Retry after 8.00 seconds").
  by vm_compute.
Defined.

Lemma f64_endpoint_failure_counts_witness :
  wrapper hexdigest_stub 1 10 (λ _, Failure (A:=unit) "boom")
    ∅ (from_host "a") d_0 =
  (Served (Failure "boom"),
   <[ "a" := prune 10 d_0 (window ∅ "a") ++ [d_0] ]> ∅).
Proof.
  apply (f64_endpoint_failure_counts hexdigest_stub 1 10
           (λ _, Failure (A:=unit) "boom") ∅ (from_host "a") d_0 "a" "boom").
  - reflexivity.
  - by vm_compute.
  - reflexivity.
Defined.

Lemma f64_idle_window_resets_witness :
  wrapper hexdigest_stub 2 10 read_root
    {[ "a" := [d_0; d_1] ]} (from_host "a") d_20 =
  (Served (read_root (from_host "a")),
   <[ "a" := [d_20] ]> {[ "a" := [d_0; d_1] ]}).
Proof.
  apply (f64_idle_window_resets hexdigest_stub 2 10 read_root
           {[ "a" := [d_0; d_1] ]} (from_host "a") d_20 "a").
  - lia.
  - lia.
  - reflexivity.
  - reflexivity.
  - intros t Ht. vm_compute in Ht.
    destruct Ht as [<-|[<-|[]]]; vm_compute; repeat split; discriminate.
Defined.

Lemma f64_retry_while_recent_refused_witness :
  ∃ p,
    float_of_int 10 = Some p
    ∧ wrapper hexdigest_stub 2 10 read_root
        (wrapper hexdigest_stub 2 10 read_root
           (run hexdigest_stub 2 10 read_root
              [(from_host "a", d_0); (from_host "a", d_1)]).1
           (from_host "a") d_2).2
        (from_host "a") d_2 =
      (Raised (HTTPException 429 (retry_detail (fsub p (fsub d_2 d_0)))),
       (wrapper hexdigest_stub 2 10 read_root
          (run hexdigest_stub 2 10 read_root
             [(from_host "a", d_0); (from_host "a", d_1)]).1
          (from_host "a") d_2).2).
Proof.
  apply (f64_retry_while_recent_refused hexdigest_stub 2 10 read_root
           [(from_host "a", d_0); (from_host "a", d_1)]
           (from_host "a") d_2
           "Rate limit exceeded. Retry after 8.00 seconds"
           (from_host "a") d_2 "a" d_0 [d_1]).
  - repeat constructor.
  - unfold clock_monotone. simpl.
    repeat (constructor; try (vm_compute; discriminate)).
  - reflexivity.
  - reflexivity.
  - by vm_compute.
  - by vm_compute.
  - by vm_compute.
Defined.

Lemma f64_retry_after_expiry_served_witness :
  (wrapper hexdigest_stub 2 10 read_root
     (wrapper hexdigest_stub 2 10 read_root
        (run hexdigest_stub 2 10 read_root
           [(from_host "a", d_0); (from_host "a", d_1)]).1
        (from_host "a") d_2).2
     (from_host "a") d_20).1 =
  Served (read_root (from_host "a")).
Proof.
  apply (f64_retry_after_expiry_served hexdigest_stub 2 10 read_root
           [(from_host "a", d_0); (from_host "a", d_1)]
           (from_host "a") d_2
           "Rate limit exceeded. Retry after 8.00 seconds"
           (from_host "a") d_20 "a" d_0 [d_1]).
  - reflexivity.
  - reflexivity.
  - by vm_compute.
  - by vm_compute.
  - by vm_compute.
Defined.

Lemma f64_burst_outcomes_witness :
  run hexdigest_stub 2 10 read_root (calls_of "a" [d_0; d_1; d_2]) =
  ({[ hexdigest_stub "a" := take (Z.to_nat 2) [d_0; d_1; d_2] ]},
   [((from_host "a", d_0), Served (read_root (from_host "a")));
    ((from_host "a", d_1), Served (read_root (from_host "a")));
    ((from_host "a", d_2),
     Raised (HTTPException 429
               "Rate limit exceeded. Retry after 8.00 seconds"))]).
Proof.
  apply (f64_burst_outcomes hexdigest_stub 2 10 read_root "a" d_0 [d_1; d_2]).
  - lia.
  - repeat constructor.
  - repeat (constructor; try (vm_compute; discriminate)).
  - repeat constructor.
Defined.

Lemma f64_read_root_burst_witness :
  map snd (run hexdigest_stub 5 60 read_root
             (calls_of "a" [d_0; d_0; d_1; d_1; d_2; d_20])).2 =
  [Served (Value {[ "message" := "Hello, World!" ]});
   Served (Value {[ "message" := "Hello, World!" ]});
   Served (Value {[ "message" := "Hello, World!" ]});
   Served (Value {[ "message" := "Hello, World!" ]});
   Served (Value {[ "message" := "Hello, World!" ]});
   Raised (HTTPException 429 (retry_detail (fsub d_60 (fsub d_20 d_0))))].
Proof.
  apply (f64_read_root_burst hexdigest_stub "a" d_0 d_0 d_1 d_1 d_2 d_20);
    try (vm_compute; discriminate).
  - repeat constructor.
  - reflexivity.
Defined.
